(** * auto_swap_bot: the detection / validation / execution pipeline

    A shallow embedding of the token watcher ([auto_swap.py], class
    [TokenMonitor]), the liquidity gate ([LiquidityChecker] in
    [auto_swap.py] and [sniper_sell.py]), the sniper growth gate
    ([SpecificTokenMonitor.check_and_sell]) and the swap executor
    ([swap_executor.py], class [SwapExecutor]).

    Conventions of the embedding:
    - Python [int] is [Z]; text is [string]; a Python [set] is a [gset], a
      [dict] used as a map is a [gmap]; a JSON object is an association
      list.
    - USD amounts are Python floats in the source.  They are only compared
      and (once) divided; a float is modelled by the rational it denotes,
      comparisons are exact and the division rounds to the nearest double
      ([PyFloat.div]).
    - Every call that leaves the process (chain RPC, HTTP) is answered by a
      field of a "world" record; [None] stands for the call raising.
    - [Web3.to_checksum_address] and [int(str)] are library functions; they
      are the methods of the class [Library], [None] where they raise.

    Part I holds the definitions, Part II the theorems. *)

From Stdlib Require Import ZArith QArith Qminmax String Ascii List Lia Bool.
From Stdlib Require PrimFloat FloatOps SpecFloat.
From stdpp Require Import gmap strings list sorting.

#[local] Set Warnings "-clear-no-such-hyp".
#[local] Set Warnings "-inexact-float".

Local Open Scope string_scope.
Local Open Scope Z_scope.

(** * Part I: definitions *)

(** The two library functions the source relies on. *)
Class Library := {
  to_checksum_address : string -> option string;
  int_of_str : string -> option Z
}.

(** ** Text helpers *)

Module PyStr.

(** [str.lower()] on ASCII text. *)
Definition lower_ascii (c : ascii) : ascii :=
  let n := nat_of_ascii c in
  if ((65 <=? n)%nat && (n <=? 90)%nat)%bool then ascii_of_nat (n + 32) else c.

Fixpoint lower (s : string) : string :=
  match s with
  | EmptyString => EmptyString
  | String c s' => String (lower_ascii c) (lower s')
  end.

(** [s[-n:]] : the last [n] characters (all of [s] when it is shorter). *)
Definition last_chars (n : nat) (s : string) : string :=
  substring (String.length s - n) n s.

(** [s.startswith(p)] *)
Definition startswith (p s : string) : bool := String.prefix p s.

End PyStr.

(** ** The event watcher ([auto_swap.py], [TokenMonitor]) *)

Module Watcher.
Import PyStr.

(** [TokenMonitor.__init__]: the detection state. *)
Record Monitor := mkMonitor {
  known_tokens : gset string;
  processed_events : gset (string * string);
  token_last_block : gmap string Z;
  last_block_scanned : Z
}.

Definition init : Monitor :=
  {| known_tokens := ∅; processed_events := ∅;
     token_last_block := ∅; last_block_scanned := 0 |}.

(** The part of [Config] and [Web3Manager] the watcher reads. *)
Record Config := mkConfig {
  DUPLICATE_CHECK_BLOCKS : Z;
  monitor_interval : Z;
  wallet : string
}.

(** A Transfer log as the gateway hands it over; [transactionHash] and the
    topics are the hexadecimal text the source obtains with [.hex()]
    (polling) or reads from the JSON message (subscription). *)
Record Log := mkLog {
  address : string;
  transactionHash : string;
  topics : list string;
  blockNumber : Z
}.

(** The deduplication key of a log. *)
Definition event_key (log : Log) : string * string :=
  (lower (address log), transactionHash log).

(** What handling one log does to the emission stream. [Raised] is an
    exception escaping the handling of this log. *)
Inductive Outcome :=
| Skipped
| Emitted (token : string)
| Raised.

Inductive Mode := Polling | Subscription.

(** The three state updates of lines 317-321 and 463-467. *)
Definition record_token (st : Monitor) (token_address tx_hash : string)
    (block_number : Z) : Monitor :=
  {| known_tokens :=
       if decide (token_address ∈ known_tokens st) then known_tokens st
       else {[token_address]} ∪ known_tokens st;
     processed_events := {[(token_address, tx_hash)]} ∪ processed_events st;
     token_last_block := <[token_address := block_number]> (token_last_block st);
     last_block_scanned := last_block_scanned st |}.

(** The cooldown test of lines 309-314 and 456-460: [true] when the log is
    to be skipped. *)
Definition in_cooldown (cfg : Config) (st : Monitor) (token_address : string)
    (block_number : Z) : bool :=
  match token_last_block st !! token_address with
  | Some last_block => block_number - last_block <? DUPLICATE_CHECK_BLOCKS cfg
  | None => false
  end.

(** Body of the [for log in logs] loop of [scan_recent_blocks];
    [my_address] is [to_checksum_address(self.address).lower()]. *)
Definition poll_log `{Library} (cfg : Config) (my_address : string)
    (st : Monitor) (log : Log) : Monitor * Outcome :=
  let tx_hash := transactionHash log in
  if decide ((lower (address log), tx_hash) ∈ processed_events st) then (st, Skipped)
  else if (3 <=? length (topics log))%nat then
    match topics log !! 2%nat with
    | Some topic =>
        let to_address := "0x" +:+ lower (last_chars 40 topic) in
        if decide (to_address = my_address) then
          let token_address := lower (address log) in
          let block_number := blockNumber log in
          if in_cooldown cfg st token_address block_number then (st, Skipped)
          else
            let st' := record_token st token_address tx_hash block_number in
            match to_checksum_address token_address with
            | Some token => (st', Emitted token)
            | None => (st', Raised)
            end
        else (st, Skipped)
    | None => (st, Skipped)
    end
  else (st, Skipped).

(** Handling of one subscription message that carries a log, up to the call
    of the handler; [my_address] is [to_checksum_address(self.address)]. *)
Definition ws_log `{Library} (cfg : Config) (my_address : string)
    (st : Monitor) (log_data : Log) : Monitor * Outcome :=
  if (3 <=? length (topics log_data))%nat then
    match topics log_data !! 2%nat with
    | Some to_address =>
        let to_address_str := "0x" +:+ lower (last_chars 40 to_address) in
        if decide (lower to_address_str = lower my_address) then
          let token_address := lower (address log_data) in
          let tx_hash := transactionHash log_data in
          let block_number := blockNumber log_data in
          if decide ((token_address, tx_hash) ∈ processed_events st) then (st, Skipped)
          else if in_cooldown cfg st token_address block_number then (st, Skipped)
          else
            let st' := record_token st token_address tx_hash block_number in
            match to_checksum_address token_address with
            | Some token => (st', Emitted token)
            | None => (st', Raised)
            end
        else (st, Skipped)
    | None => (st, Skipped)
    end
  else (st, Skipped).

(** The log is a transfer to the wallet whose checksummed address is [my]:
    its third topic ends in the wallet's forty hexadecimal digits. *)
Definition addressed_to (my : string) (log : Log) : Prop :=
  exists topic, topics log !! 2%nat = Some topic /\
    "0x" +:+ lower (last_chars 40 topic) = lower my.

(** One log handled in either mode; [my] is the checksummed wallet
    address, which polling lower-cases once and the subscription loop
    lower-cases at each comparison. *)
Definition watch_log `{Library} (cfg : Config) (m : Mode) (my : string)
    (st : Monitor) (log : Log) : Monitor * Outcome :=
  match m with
  | Polling => poll_log cfg (lower my) st log
  | Subscription => ws_log cfg my st log
  end.

(** The [for] loop of [scan_recent_blocks]: the new tokens in order, and
    whether the loop ran to its end ([false]: an exception left it). *)
Fixpoint scan_logs `{Library} (cfg : Config) (my_address : string)
    (st : Monitor) (logs : list Log) : Monitor * list string * bool :=
  match logs with
  | [] => (st, [], true)
  | log :: rest =>
      match poll_log cfg my_address st log with
      | (st', Skipped) => scan_logs cfg my_address st' rest
      | (st', Emitted token) =>
          let '(st'', new_tokens, finished) := scan_logs cfg my_address st' rest in
          (st'', token :: new_tokens, finished)
      | (st', Raised) => (st', [], false)
      end
  end.

(** What the chain gateway answers during one polling cycle. *)
Record Chain := mkChain {
  block_number : option Z;
  get_logs : Z -> Z -> option (list Log)
}.

(** The block range a cycle asks for (line 268 and lines 276-280). *)
Definition scan_range (st : Monitor) (num_blocks current_block : Z) : Z * Z :=
  (Z.max (current_block - num_blocks) (last_block_scanned st + 1), current_block).

Definition set_last_block_scanned (st : Monitor) (b : Z) : Monitor :=
  {| known_tokens := known_tokens st;
     processed_events := processed_events st;
     token_last_block := token_last_block st;
     last_block_scanned := b |}.

(** [TokenMonitor.scan_recent_blocks]. *)
Definition scan_recent_blocks `{Library} (cfg : Config) (st : Monitor)
    (num_blocks : Z) (chain : Chain) : Monitor * list string :=
  match block_number chain with
  | None => (st, [])
  | Some current_block =>
      let '(start_block, to_block) := scan_range st num_blocks current_block in
      match get_logs chain start_block to_block with
      | None => (st, [])
      | Some logs =>
          match to_checksum_address (wallet cfg) with
          | None => (st, [])
          | Some my =>
              let '(st', new_tokens, finished) := scan_logs cfg (lower my) st logs in
              if finished then (set_last_block_scanned st' current_block, new_tokens)
              else (st', new_tokens)
          end
      end
  end.

(** The range a cycle really queried, when it got as far as the query. *)
Definition queried_range (st : Monitor) (num_blocks : Z) (chain : Chain)
    : option (Z * Z) :=
  match block_number chain with
  | None => None
  | Some current_block => Some (scan_range st num_blocks current_block)
  end.

(** A cycle is successful when it reaches the assignment of line 326. *)
Definition cycle_succeeds `{Library} (cfg : Config) (st : Monitor)
    (num_blocks : Z) (chain : Chain) : bool :=
  match block_number chain with
  | None => false
  | Some current_block =>
      let '(start_block, to_block) := scan_range st num_blocks current_block in
      match get_logs chain start_block to_block with
      | None => false
      | Some logs =>
          match to_checksum_address (wallet cfg) with
          | None => false
          | Some my => snd (scan_logs cfg (lower my) st logs)
          end
      end
  end.

(** One call of the handler: the detection state at the moment of the
    call, the token handed over, and whether the handler raised. *)
Record Invocation := mkInvocation {
  seen : Monitor;
  handed : string;
  raised : bool
}.

(** The handler ([callback]); [false] stands for the handler raising. It
    may depend on everything it can observe. *)
Definition Handler := Monitor -> string -> bool.

Definition invoke (callback : Handler) (st : Monitor) (token : string) : Invocation :=
  {| seen := st; handed := token; raised := negb (callback st token) |}.

(** One turn of the [while True] loop of [monitor_loop_polling]: the scan,
    then the handler on each new token inside its own [try]. *)
Definition poll_iteration `{Library} (cfg : Config) (callback : Handler)
    (st : Monitor) (chain : Chain) : Monitor * list Invocation :=
  let '(st', new_tokens) := scan_recent_blocks cfg st (monitor_interval cfg) chain in
  (st', map (invoke callback st') new_tokens).

(** One log message of [monitor_loop_websocket]. *)
Definition ws_message `{Library} (cfg : Config) (callback : Handler)
    (st : Monitor) (log_data : Log) : Monitor * list Invocation :=
  match to_checksum_address (wallet cfg) with
  | None => (st, [])
  | Some my =>
      match ws_log cfg my st log_data with
      | (st', Emitted token) => (st', [invoke callback st' token])
      | (st', _) => (st', [])
      end
  end.

(** What reaches the watcher during its life: polling cycles and
    subscription messages, in any interleaving. *)
Inductive Input :=
| Cycle (chain : Chain)
| Message (log_data : Log).

Definition step `{Library} (cfg : Config) (callback : Handler)
    (st : Monitor) (i : Input) : Monitor * list Invocation :=
  match i with
  | Cycle chain => poll_iteration cfg callback st chain
  | Message log_data => ws_message cfg callback st log_data
  end.

Fixpoint run `{Library} (cfg : Config) (callback : Handler)
    (st : Monitor) (inputs : list Input) : Monitor * list Invocation :=
  match inputs with
  | [] => (st, [])
  | i :: rest =>
      let '(st', calls) := step cfg callback st i in
      let '(st'', calls') := run cfg callback st' rest in
      (st'', (calls ++ calls')%list)
  end.

(** The keys of the logs that were emitted while a sequence of logs was
    handled, each in its mode. *)
Fixpoint emitted_events `{Library} (cfg : Config) (my : string)
    (st : Monitor) (deliveries : list (Mode * Log)) : list (string * string) :=
  match deliveries with
  | [] => []
  | (m, log) :: rest =>
      match watch_log cfg m my st log with
      | (st', Emitted _) => event_key log :: emitted_events cfg my st' rest
      | (st', _) => emitted_events cfg my st' rest
      end
  end.

(** The ranges queried by the successful cycles of a run of polling
    cycles, in order. *)
Fixpoint scanned_ranges `{Library} (cfg : Config) (st : Monitor)
    (chains : list Chain) : list (Z * Z) :=
  match chains with
  | [] => []
  | chain :: rest =>
      let st' := fst (scan_recent_blocks cfg st (monitor_interval cfg) chain) in
      match queried_range st (monitor_interval cfg) chain with
      | Some r =>
          if cycle_succeeds cfg st (monitor_interval cfg) chain
          then r :: scanned_ranges cfg st' rest
          else scanned_ranges cfg st' rest
      | None => scanned_ranges cfg st' rest
      end
  end.

(** Block [b] lies in the range [r]. *)
Definition in_range (b : Z) (r : Z * Z) : Prop := fst r <= b <= snd r.

(** One range lies wholly before another. *)
Definition before (r1 r2 : Z * Z) : Prop := snd r1 < fst r2.

(** The state after a run of polling cycles. *)
Definition after_cycles `{Library} (cfg : Config) (st : Monitor)
    (chains : list Chain) : Monitor :=
  fold_left (fun st chain => fst (scan_recent_blocks cfg st (monitor_interval cfg) chain))
    chains st.

(** "Every block is scanned, no gaps", in the specification's words: each
    block between the scan marker at the start and at the end of a run of
    cycles lies in the range of some cycle. *)
Definition spec_no_gaps `{Library} (cfg : Config) (st : Monitor)
    (chains : list Chain) : Prop :=
  forall b, last_block_scanned st < b <= last_block_scanned (after_cycles cfg st chains) ->
    exists r, r ∈ scanned_ranges cfg st chains /\ in_range b r.


(** The detection sets of [st'] hold at least what those of [st] hold. *)
Definition extends (st st' : Monitor) : Prop :=
  processed_events st ⊆ processed_events st' /\
  known_tokens st ⊆ known_tokens st' /\
  dom (token_last_block st) ⊆ dom (token_last_block st').

(** The log behind a call of the handler is marked in [st]. *)
Definition marked `{Library} (st : Monitor) (token : string) (log : Log) : Prop :=
  event_key log ∈ processed_events st /\
  lower (address log) ∈ known_tokens st /\
  lower (address log) ∈ dom (token_last_block st) /\
  to_checksum_address (lower (address log)) = Some token.

(** The logs a sequence of inputs can deliver. *)
Definition carries (log : Log) (i : Input) : Prop :=
  match i with
  | Cycle chain => exists a b logs, get_logs chain a b = Some logs /\ log ∈ logs
  | Message log_data => log = log_data
  end.

(** The heights the gateway reports never go back. *)
Fixpoint heights_monotone (floor : Z) (chains : list Chain) : Prop :=
  match chains with
  | [] => True
  | chain :: rest =>
      match block_number chain with
      | Some h => floor <= h /\ heights_monotone h rest
      | None => heights_monotone floor rest
      end
  end.

End Watcher.

(** ** The liquidity gate ([LiquidityChecker], the same text in
    [auto_swap.py] and in [sniper_sell.py]) *)

Module Liquidity.
Import PyStr.

(** The dictionary [check_liquidity_dexscreener] returns; the three last
    keys are absent from the zero-liquidity answer. *)
Record Snapshot := mkSnapshot {
  has_liquidity : bool;
  liquidity_usd : Q;
  best_pair : option string;
  dex : option string;
  price_usd : option Q
}.

Definition zero_snapshot : Snapshot :=
  {| has_liquidity := false; liquidity_usd := 0;
     best_pair := None; dex := None; price_usd := None |}.

(** A numeric field of the oracle's JSON: missing, a number, or something
    on which [float(...)] (or the [.get] chain before it) raises. *)
Inductive Field :=
| Absent
| Number (q : Q)
| Malformed.

(** [float(x.get(key, 0))] *)
Definition float_or_zero (f : Field) : option Q :=
  match f with
  | Absent => Some 0%Q
  | Number q => Some q
  | Malformed => None
  end.

(** One element of the oracle's [pairs] list. *)
Record Pair := mkPair {
  liquidity_usd_field : Field;
  pairAddress : option string;
  dexId : option string;
  priceUsd : Field
}.

(** Answer of the HTTP GET: the request raised (timeout, connection
    error), or a status came back with a body; the body is [None] when
    decoding it raises, otherwise the value of [data.get('pairs', [])]. *)
Inductive Response :=
| RequestRaised
| Status (code : Z) (pairs : option (list Pair)).

Definition Qltb (x y : Q) : bool := negb (Qle_bool y x).

(** Python's [max(iterable, key=...)] once the keys are known: the first
    element whose key no other exceeds. *)
Fixpoint max_from (best : Pair) (best_key : Q) (rest : list (Pair * Q)) : Pair :=
  match rest with
  | [] => best
  | (x, k) :: rest' =>
      if Qltb best_key k then max_from x k rest' else max_from best best_key rest'
  end.

(** The key of line 549, [None] when it raises on some pair. *)
Fixpoint keyed (pairs : list Pair) : option (list (Pair * Q)) :=
  match pairs with
  | [] => Some []
  | x :: rest =>
      match float_or_zero (liquidity_usd_field x), keyed rest with
      | Some k, Some ks => Some ((x, k) :: ks)
      | _, _ => None
      end
  end.

Definition max_by_liquidity (pairs : list Pair) : option Pair :=
  match keyed pairs with
  | Some ((x, k) :: rest) => Some (max_from x k rest)
  | _ => None
  end.

Definition ZERO_ADDRESS : string := "0x0000000000000000000000000000000000000000".

Definition url_of (token_address : string) : string :=
  "https://api.dexscreener.com/latest/dex/tokens/" +:+ token_address.

(** [LiquidityChecker.check_liquidity_dexscreener]: the snapshot, and the
    URLs that were requested on the way. *)
Definition check_liquidity_dexscreener (http_get : string -> Response)
    (token_address : string) : Snapshot * list string :=
  if decide (lower token_address = ZERO_ADDRESS) then (zero_snapshot, [])
  else if (negb (startswith "0x" token_address)
           || negb (String.length token_address =? 42)%nat)%bool
  then (zero_snapshot, [])
  else
    let url := url_of token_address in
    match http_get url with
    | RequestRaised => (zero_snapshot, [url])
    | Status code body =>
        if code =? 200 then
          match body with
          | None => (zero_snapshot, [url])
          | Some [] => (zero_snapshot, [url])
          | Some pairs =>
              match max_by_liquidity pairs with
              | None => (zero_snapshot, [url])
              | Some best =>
                  match float_or_zero (liquidity_usd_field best),
                        float_or_zero (priceUsd best) with
                  | Some liq, Some price =>
                      ({| has_liquidity := Qltb 0 liq;
                          liquidity_usd := liq;
                          best_pair := pairAddress best;
                          dex := dexId best;
                          price_usd := Some price |}, [url])
                  | _, _ => (zero_snapshot, [url])
                  end
              end
          end
        else (zero_snapshot, [url])
    end.

(** [LiquidityChecker.is_tradeable] with [self.config.min_liquidity_usd]. *)
Definition is_tradeable (min_liquidity_usd : Q) (liquidity_info : Snapshot) : bool :=
  has_liquidity liquidity_info && Qle_bool min_liquidity_usd (liquidity_usd liquidity_info).

(** The threshold comparison the specification describes, by its words. *)
Definition spec_is_tradeable (min_liquidity_usd : Q) (liquidity_info : Snapshot) : bool :=
  Qle_bool min_liquidity_usd (liquidity_usd liquidity_info).

(** The snapshots the liquidity check builds: the flag is derived from the
    amount. *)
Definition well_formed (s : Snapshot) : Prop :=
  has_liquidity s = Qltb 0 (liquidity_usd s).

Definition with_liquidity (s : Snapshot) (liq : Q) : Snapshot :=
  {| has_liquidity := Qltb 0 liq; liquidity_usd := liq;
     best_pair := best_pair s; dex := dex s; price_usd := price_usd s |}.

(** The same snapshot with another amount, every other entry (the flag
    too) held fixed. *)
Definition set_liquidity_usd (s : Snapshot) (liq : Q) : Snapshot :=
  {| has_liquidity := has_liquidity s; liquidity_usd := liq;
     best_pair := best_pair s; dex := dex s; price_usd := price_usd s |}.

(** "Raising liquidityUsd past the threshold flips the result from false
    to true, for any snapshot shape held fixed", in the specification's
    words. *)
Definition spec_flips_at_threshold (min_liquidity_usd : Q) : Prop :=
  forall s low high,
    (low < min_liquidity_usd)%Q -> (min_liquidity_usd <= high)%Q ->
    is_tradeable min_liquidity_usd (set_liquidity_usd s low) = false /\
    is_tradeable min_liquidity_usd (set_liquidity_usd s high) = true.

End Liquidity.

(** ** Python's float division *)

Module PyFloat.
Import PrimFloat.

(** A Python float is a binary64 of IEEE 754. The doubles are modelled
    by the rationals they denote; comparing them is exact, and [x / y]
    is the real quotient rounded to the nearest double, ties to even,
    which is written out here. The infinity an overflowing quotient
    gives is stood for by 2^1024, which lies above every finite double
    as infinity does. *)
Definition pow2 (e : Z) : Q :=
  if 0 <=? e then inject_Z (2 ^ e) else 1 # Z.to_pos (2 ^ (- e)).

Definition infinity : Q := inject_Z (2 ^ 1024).

(** The positive rational [n / d] rounded to the nearest double: 53 bits
    of mantissa from 2^-1022 on, the multiples of 2^-1074 below. *)
Definition round_pos (n d : positive) : Q :=
  let n := Z.pos n in
  let d := Z.pos d in
  let e0 := Z.log2 n - Z.log2 d in
  let below := if 0 <=? e0 then n <? d * 2 ^ e0 else n * 2 ^ (- e0) <? d in
  let e := Z.max (if below then e0 - 1 else e0) (-1022) in
  let shift := 52 - e in
  let num := if 0 <=? shift then n * 2 ^ shift else n in
  let den := if 0 <=? shift then d else d * 2 ^ (- shift) in
  let m := num / den in
  let rest := num mod den in
  let m := if (den <? 2 * rest) || ((2 * rest =? den) && Z.odd m) then m + 1 else m in
  let rounded := Qred (inject_Z m * pow2 (- shift)) in
  if Qle_bool infinity rounded then infinity else rounded.

(** The double nearest to a rational: what [float(...)] and the reading
    of a decimal give, and the identity on the doubles. *)
Definition round64 (q : Q) : Q :=
  let q := Qred q in
  match Qnum q with
  | Z0 => 0%Q
  | Z.pos n => round_pos n (Qden q)
  | Z.neg n => (- round_pos n (Qden q))%Q
  end.

(** [x / y] on doubles, for a divisor that is not zero. *)
Definition div (x y : Q) : Q := round64 (x / y).

(** The rational a machine double denotes, for comparison with the
    division of the processor; [None] for a NaN. *)
Definition of_machine (f : PrimFloat.float) : option Q :=
  match FloatOps.Prim2SF f with
  | SpecFloat.S754_zero _ => Some 0%Q
  | SpecFloat.S754_finite s m e =>
      Some (Qred ((if s then -1 else 1) * inject_Z (Z.pos m) * pow2 e))
  | SpecFloat.S754_infinity s => Some (if s then - infinity else infinity)%Q
  | SpecFloat.S754_nan => None
  end.

(** The division of the model and that of the machine give the same
    double for [a / b]. *)
Definition agrees_with_machine (a b : PrimFloat.float) : bool :=
  match of_machine a, of_machine b, of_machine (PrimFloat.div a b) with
  | Some x, Some y, Some q => Qeq_bool (div x y) q
  | _, _, _ => false
  end.

(** Pairs of doubles of every sort: quotients that are exact, that round
    up and down, ties, an overflow, the subnormal range, negatives. *)
Definition machine_samples : list (PrimFloat.float * PrimFloat.float) :=
  [(3000, 2000); (2500, 2000); (1504.35, 1002.9); (1, 3); (2, 3); (-7, 3);
   (1, 10); (123456.789, 0.001); (0.1, 0.3); (9007199254740991, 3);
   (1e308, 1e-10); (-1e308, 1e-10); (0x1.fffffffffffffp1023, 0.5);
   (0x1p-1074, 2); (0x3p-1074, 2); (0x5p-1074, 2); (0x1.fffffffffffffp-1022, 2);
   (0x1p-1022, 3); (1e-320, 7); (5e-324, 1e10)]%float.

End PyFloat.

(** ** The sniper's growth gate ([sniper_sell.py],
    [SpecificTokenMonitor.check_and_sell]) *)

Module Sniper.
Import Liquidity.

(** The liquidity-tracking fields of [SpecificTokenMonitor]. *)
Record Tracker := mkTracker {
  has_liquidity_detected : bool;
  initial_liquidity : Q;
  current_liquidity : Q;
  max_liquidity_seen : Q;
  liquidity_check_count : Z
}.

Definition fresh : Tracker :=
  {| has_liquidity_detected := false; initial_liquidity := 0;
     current_liquidity := 0; max_liquidity_seen := 0; liquidity_check_count := 0 |}.

Record Config := mkConfig {
  min_liquidity_usd : Q;
  liquidity_growth_threshold : Q
}.

(** What one check reads from outside: the float balance, the snapshot of
    the liquidity check, the total supply, the balance in wei, and what
    [execute_swap] returns if it comes to that. *)
Record Reads := mkReads {
  balance : Q;
  liquidity_info : Snapshot;
  total_supply : Q;
  balance_wei : Z;
  swap_result : option string
}.

(** Where one call of [check_and_sell] ends. *)
Inductive Ending :=
| NoBalance
| NotTradeable
| FirstSeenWaiting
| StillGrowing (growth_ratio : Q)
| NoSupply (growth_ratio : Q)
| NoWeiBalance (growth_ratio : Q)
| SwapCalled (growth_ratio : Q) (amount_wei : Z) (tx_hash : option string).

(** Lines 504-552: the selling part. *)
Definition sell (r : Reads) (growth_ratio : Q) : Ending :=
  if Qle_bool (total_supply r) 0 then NoSupply growth_ratio
  else if balance_wei r <=? 0 then NoWeiBalance growth_ratio
  else SwapCalled growth_ratio (balance_wei r) (swap_result r).

(** Line 480. *)
Definition growth_ratio_of (current initial : Q) : Q :=
  if Qltb 0 initial then PyFloat.div current initial else 0%Q.

(** [SpecificTokenMonitor.check_and_sell]. *)
Definition check_and_sell (cfg : Config) (t : Tracker) (r : Reads) : Tracker * Ending :=
  if Qle_bool (balance r) 0 then (t, NoBalance)
  else if negb (is_tradeable (min_liquidity_usd cfg) (liquidity_info r)) then (t, NotTradeable)
  else
    let current := liquidity_usd (liquidity_info r) in
    if negb (has_liquidity_detected t) then
      let t' := {| has_liquidity_detected := true;
                   initial_liquidity := current;
                   current_liquidity := current;
                   max_liquidity_seen := current;
                   liquidity_check_count := 1 |} in
      if Qltb 1 (liquidity_growth_threshold cfg) then (t', FirstSeenWaiting)
      else (t', sell r 1%Q)
    else
      let t' := {| has_liquidity_detected := has_liquidity_detected t;
                   initial_liquidity := initial_liquidity t;
                   current_liquidity := current;
                   max_liquidity_seen :=
                     if Qltb (max_liquidity_seen t) current then current
                     else max_liquidity_seen t;
                   liquidity_check_count := liquidity_check_count t + 1 |} in
      let growth_ratio := growth_ratio_of current (initial_liquidity t) in
      if Qltb growth_ratio (liquidity_growth_threshold cfg) then (t', StillGrowing growth_ratio)
      else (t', sell r growth_ratio).

(** The check went past the growth gate into the selling part. *)
Definition sale_started (e : Ending) : bool :=
  match e with
  | NoSupply _ | NoWeiBalance _ | SwapCalled _ _ _ => true
  | _ => false
  end.

Definition swap_called (e : Ending) : bool :=
  match e with
  | SwapCalled _ _ _ => true
  | _ => false
  end.

(** The check found tradeable liquidity (it got to line 443). *)
Definition finds_tradeable (cfg : Config) (r : Reads) : Prop :=
  (0 < balance r)%Q /\ is_tradeable (min_liquidity_usd cfg) (liquidity_info r) = true.

(** "On a subsequent check the swap is executed if and only if growthRatio
    >= growthThreshold", in the specification's words; growthRatio is the
    quotient of the two floats. *)
Definition spec_swap_iff_grown (cfg : Config) (t : Tracker) (r : Reads) : Prop :=
  swap_called (check_and_sell cfg t r).2 = true <->
  (liquidity_growth_threshold cfg
     <= PyFloat.div (liquidity_usd (liquidity_info r)) (initial_liquidity t))%Q.

(** Once liquidity was seen, the recorded initial liquidity is positive. *)
Definition tracker_ok (t : Tracker) : Prop :=
  has_liquidity_detected t = true -> (0 < initial_liquidity t)%Q.

End Sniper.

(** ** The swap executor ([swap_executor.py], [SwapExecutor]) *)

Module Swap.

(** The liquidity sources named by [config.AGGREGATOR_PRIORITY]. *)
Inductive Provider := OneInch | ZeroEx | Uniswap | OKX.

#[global] Instance Provider_eq_dec : EqDecision Provider.
Proof. solve_decision. Defined.

(** [config.AGGREGATOR_PRIORITY = ["1inch", "0x", "uniswap", "okx"]] *)
Definition AGGREGATOR_PRIORITY : list Provider := [OneInch; ZeroEx; Uniswap; OKX].

(** JSON values as far as the executor looks into them: scalars, and one
    level of objects (the [transaction] entry of the swap data). *)
Inductive Scalar :=
| SNull
| SInt (z : Z)
| SStr (s : string).

Inductive Val :=
| VScalar (x : Scalar)
| VDict (fields : list (string * Scalar)).

Definition Dict := list (string * Val).

(** [d.get(key)] *)
Fixpoint get {V : Type} (key : string) (d : list (string * V)) : option V :=
  match d with
  | [] => None
  | (k, v) :: rest => if decide (k = key) then Some v else get key rest
  end.

(** Python's truth value of an [Optional[Dict]]: [None] and the empty
    dictionary are false. *)
Definition truthy (d : option Dict) : bool :=
  match d with
  | Some (_ :: _) => true
  | _ => false
  end.

(** Answer of one HTTP GET of a provider: the request raised, or a status
    came back with a body ([None] when decoding it raises). *)
Inductive Http :=
| HttpRaised
| HttpStatus (code : Z) (body : option Dict).

Record Receipt := mkReceipt {
  status : Z;
  receipt_block : Z;
  gasUsed : Z
}.

(** What the outside answers during one [execute_swap]: one field per
    call site. *)
Record World := mkWorld {
  quote_http : Provider -> Http;
  swap_http : Provider -> Http;
  allowance_call : option Z;
  approve_nonce : option Z;
  approve_gas_price : option Z;
  approve_signed : option string;
  approve_sent : option string;
  approve_receipt : option Receipt;
  swap_gas_price : option Z;
  swap_nonce : option Z;
  swap_signed : option string;
  swap_sent : option string;
  swap_receipt : option Receipt
}.

(** The calls that leave the process, as they happen. *)
Inductive Event :=
| EvQuote (p : Provider)
| EvSwapData (p : Provider)
| EvAllowanceRead (token spender : string)
| EvApproveCalled (token : string) (spender : option Val) (amount : Z)
| EvApproveSent (token spender : string) (amount : Z)
| EvApproveWaited
| EvSwapSigned (to : string)
| EvSwapSent
| EvSwapWaited.

(** Computations that log their calls and may raise: the value ([None]
    after a raise) and the calls made. *)
Definition M (A : Type) : Type := option A * list Event.

Definition ret {A} (a : A) : M A := (Some a, []).
Definition raise {A} : M A := (None, []).
Definition emit (e : Event) : M unit := (Some tt, [e]).
Definition lift {A} (o : option A) : M A := (o, []).

Definition bind {A B} (m : M A) (f : A -> M B) : M B :=
  match m with
  | (Some a, t) => let '(r, t') := f a in (r, (t ++ t')%list)
  | (None, t) => (None, t)
  end.

(** [try: m except Exception: return fallback] *)
Definition catch {A} (m : M A) (fallback : A) : M A :=
  match m with
  | (Some a, t) => (Some a, t)
  | (None, t) => (Some fallback, t)
  end.

#[global] Instance M_bind : MBind M := fun A B f m => bind m f.
#[global] Instance M_ret : MRet M := fun A a => ret a.

(** The body read after a status line: only a 200 is decoded. *)
Definition body_of (h : Http) : M (option Dict) :=
  match h with
  | HttpRaised => raise
  | HttpStatus code body =>
      if code =? 200 then (d ← lift body; ret (Some d)) else ret None
  end.

(** The values of the ABI type uint256. *)
Definition uint256 (n : Z) : bool := (0 <=? n) && (n <? 2 ^ 256).

Section Executor.
Context `{Library}.

(** [self.address], the wallet of the executor. *)
Variable self_address : string.
Variable w : World.

(** [SwapExecutor.get_0x_quote] *)
Definition get_0x_quote (token_in token_out : string) (amount : Z) : M (option Dict) :=
  catch (_ ← lift (to_checksum_address token_in);
         _ ← lift (to_checksum_address token_out);
         _ ← lift (to_checksum_address self_address);
         emit (EvQuote ZeroEx);;
         body_of (quote_http w ZeroEx)) None.

(** [SwapExecutor.get_0x_swap_tx] *)
Definition get_0x_swap_tx (token_in token_out : string) (amount : Z) : M (option Dict) :=
  catch (_ ← lift (to_checksum_address token_in);
         _ ← lift (to_checksum_address token_out);
         _ ← lift (to_checksum_address self_address);
         emit (EvSwapData ZeroEx);;
         body_of (swap_http w ZeroEx)) None.

(** [Web3.to_checksum_address] on whatever [.get] returned. *)
Definition checksum_scalar (v : option Scalar) : option string :=
  match v with
  | Some (SStr s) => to_checksum_address s
  | _ => None
  end.

Definition checksum_val (v : option Val) : option string :=
  match v with
  | Some (VScalar x) => checksum_scalar (Some x)
  | _ => None
  end.

(** [SwapExecutor.check_allowance]: a failed read counts as no allowance. *)
Definition check_allowance (token_address : string) (spender : option Val) : M Z :=
  catch (token ← lift (to_checksum_address token_address);
         spender' ← lift (checksum_val spender);
         emit (EvAllowanceRead token spender');;
         lift (allowance_call w)) 0.

(** [SwapExecutor.approve_token]: the hash of the approval, [None] when
    anything on the way raised. [contract.functions.approve(spender,
    amount)] raises for an amount that is no uint256, before the nonce
    and the gas price are read. *)
Definition approve_token (token_address : string) (spender : option Val) (amount : Z)
    : M (option string) :=
  emit (EvApproveCalled token_address spender amount);;
  catch (token ← lift (to_checksum_address token_address);
         spender' ← lift (checksum_val spender);
         _ ← lift (if uint256 amount then Some tt else None);
         _ ← lift (approve_nonce w);
         _ ← lift (approve_gas_price w);
         _ ← lift (approve_signed w);
         emit (EvApproveSent token spender' amount);;
         tx_hash ← lift (approve_sent w);
         emit EvApproveWaited;;
         _ ← lift (approve_receipt w);
         ret (Some tx_hash)) None.

(** [int(x)] for the values the transaction fields hold. *)
Definition py_int (v : Scalar) : option Z :=
  match v with
  | SInt z => Some z
  | SStr s => int_of_str s
  | SNull => None
  end.

(** [int(d.get(key, default))] *)
Definition int_field (key : string) (default : Z) (d : list (string * Scalar)) : option Z :=
  match get key d with
  | Some v => py_int v
  | None => Some default
  end.

(** [swap_data.get('transaction', {})], [None] when the value found is not
    a dictionary (indexing it raises). *)
Definition transaction_of (swap_data : Dict) : option (list (string * Scalar)) :=
  match get "transaction" swap_data with
  | None => Some []
  | Some (VDict d) => Some d
  | Some _ => None
  end.

(** Steps 4 to 7 of [execute_swap]: build, sign, send, wait. *)
Definition send_swap (swap_data : Dict) : M (option string) :=
  tx_data ← lift (transaction_of swap_data);
  to ← lift (checksum_scalar (get "to" tx_data));
  _ ← lift (int_field "value" 0 tx_data);
  _ ← lift (int_field "gas" 500000 tx_data);
  price ← lift (swap_gas_price w);
  _ ← lift (int_field "gasPrice" price tx_data);
  _ ← lift (swap_nonce w);
  _ ← lift (swap_signed w);
  emit (EvSwapSigned to);;
  emit EvSwapSent;;
  tx_hash ← lift (swap_sent w);
  emit EvSwapWaited;;
  receipt ← lift (swap_receipt w);
  if status receipt =? 1 then ret (Some tx_hash) else ret None.

(** Step 3 of [execute_swap]: the allowance check and, when needed, the
    approval, whose result is dropped. *)
Definition ensure_allowance (token_in : string) (swap_data : Dict) (amount_in : Z) : M unit :=
  let allowance_target := get "allowanceTarget" swap_data in
  current_allowance ← check_allowance token_in allowance_target;
  if current_allowance <? amount_in
  then (_ ← approve_token token_in allowance_target (amount_in * 2); ret tt)
  else ret tt.

(** [SwapExecutor.execute_swap]: the hash of the swap or [None], and the
    calls made. *)
Definition execute_swap (token_in token_out : string) (amount_in : Z)
    : option string * list Event :=
  let '(r, t) :=
    catch (quote ← get_0x_quote token_in token_out amount_in;
           if negb (truthy quote) then ret None
           else
             swap_data ← get_0x_swap_tx token_in token_out amount_in;
             match swap_data with
             | Some (f :: fs) =>
                 ensure_allowance token_in (f :: fs) amount_in;;
                 send_swap (f :: fs)
             | _ => ret None
             end) None in
  (match r with Some h => h | None => None end, t).

End Executor.

(** *** Observations on a trace *)

Definition is_approval (e : Event) : bool :=
  match e with
  | EvApproveCalled _ _ _ | EvApproveSent _ _ _ | EvApproveWaited => true
  | _ => false
  end.

Definition is_swap_submission (e : Event) : bool :=
  match e with
  | EvSwapSigned _ | EvSwapSent | EvSwapWaited => true
  | _ => false
  end.

(** The providers a trace asked, in order. *)
Fixpoint providers_asked (t : list Event) : list Provider :=
  match t with
  | [] => []
  | EvQuote p :: t' => p :: providers_asked t'
  | EvSwapData p :: t' => p :: providers_asked t'
  | _ :: t' => providers_asked t'
  end.

(** What a provider's [get_quote] / [get_swap_tx] hands back for an HTTP
    answer: the decoded body of a 200, null otherwise. *)
Definition response_of (h : Http) : option Dict :=
  match h with
  | HttpStatus code (Some d) => if code =? 200 then Some d else None
  | _ => None
  end.

(** A provider answers null for the quote and for the swap data. *)
Definition answers_null (w : World) (p : Provider) : Prop :=
  response_of (quote_http w p) = None /\ response_of (swap_http w p) = None.

(** The routing policy in the specification's words: the first provider
    of the priority order whose quote is not null. *)
Fixpoint spec_first_non_null (w : World) (priority : list Provider)
    : option (Provider * Dict) :=
  match priority with
  | [] => None
  | p :: rest =>
      match response_of (quote_http w p) with
      | Some d => Some (p, d)
      | None => spec_first_non_null w rest
      end
  end.

(** The routing claim on one execution, in the specification's words: the
    provider whose result is to be accepted is asked, and a provider that
    was asked and answered null is followed by the next one of the
    priority order. *)
Definition spec_routing (asked : list Provider) (w : World) : Prop :=
  (forall p d, spec_first_non_null w AGGREGATOR_PRIORITY = Some (p, d) -> In p asked) /\
  (forall p q before after,
      AGGREGATOR_PRIORITY = (before ++ p :: q :: after)%list ->
      In p asked -> answers_null w p -> In q asked).

End Swap.

(** ** Sample data for the worked scenarios *)

Module Samples.
Import Watcher.

(** A stand-in for the library: every address is its own checksummed
    form, and no text converts to a number. *)
Definition plain_library : Library :=
  {| to_checksum_address := Some; int_of_str := fun _ => None |}.

Definition my_wallet : string := "0x1111111111111111111111111111111111111111".
Definition token_a : string := "0xAAAAAAAAAAAAAAAAAAAAAAAAAAAAAAAAAAAAAAAA".
Definition token_a_lower : string := "0xaaaaaaaaaaaaaaaaaaaaaaaaaaaaaaaaaaaaaaaa".

Definition transfer_topics : list string :=
  ["0xddf252ad1be2c89b69c2b068fc378daa952ba7f163c4a11628f55a4df523b3ef";
   "0x0000000000000000000000002222222222222222222222222222222222222222";
   "0x0000000000000000000000001111111111111111111111111111111111111111"].

(** A transfer of token A to the wallet, in block [b], with hash [tx]. *)
Definition transfer_a (tx : string) (b : Z) : Log :=
  {| address := token_a; transactionHash := tx;
     topics := transfer_topics; blockNumber := b |}.

(** Cooldown 3, ten blocks per polling cycle. *)
Definition cfg3 : Config :=
  {| DUPLICATE_CHECK_BLOCKS := 3; monitor_interval := 10; wallet := my_wallet |}.

(** The state once token A has been seen in block 100. *)
Definition seen_at_100 : Monitor :=
  fst (@watch_log plain_library cfg3 Polling my_wallet init (transfer_a "0x01" 100)).

(** A gateway at height [h] with no logs to report. *)
Definition quiet_chain (h : Z) : Chain :=
  {| block_number := Some h; get_logs := fun _ _ => Some [] |}.

(** Three pairs of one token; the second is the deepest. *)
Definition three_pairs : list Liquidity.Pair :=
  [ {| Liquidity.liquidity_usd_field := Liquidity.Number 1200;
       Liquidity.pairAddress := Some "0xpair1"; Liquidity.dexId := Some "uniswap";
       Liquidity.priceUsd := Liquidity.Number (1 # 2) |};
    {| Liquidity.liquidity_usd_field := Liquidity.Number 3500;
       Liquidity.pairAddress := Some "0xpair2"; Liquidity.dexId := Some "aerodrome";
       Liquidity.priceUsd := Liquidity.Number (1 # 2) |};
    {| Liquidity.liquidity_usd_field := Liquidity.Absent;
       Liquidity.pairAddress := Some "0xpair3"; Liquidity.dexId := None;
       Liquidity.priceUsd := Liquidity.Absent |} ].

(** An oracle that knows these pairs for every token. *)
Definition oracle_three_pairs (url : string) : Liquidity.Response :=
  Liquidity.Status 200 (Some three_pairs).

(** The sniper with minimum 1000 and a growth threshold of one and a half. *)
Definition sniper_cfg : Sniper.Config :=
  {| Sniper.min_liquidity_usd := 1000; Sniper.liquidity_growth_threshold := 3 # 2 |}.

(** Reads of a wallet that holds the token while the pool is at [liq] USD. *)
Definition sniper_reads (liq : Q) : Sniper.Reads :=
  {| Sniper.balance := 5;
     Sniper.liquidity_info := Liquidity.with_liquidity Liquidity.zero_snapshot liq;
     Sniper.total_supply := 1000000;
     Sniper.balance_wei := 5000000000000000000;
     Sniper.swap_result := Some "0xswap" |}.

(** The same wallet when the read of the total supply fails (the source
    turns the failure into 0). *)
Definition sniper_reads_no_supply (liq : Q) : Sniper.Reads :=
  {| Sniper.balance := 5;
     Sniper.liquidity_info := Liquidity.with_liquidity Liquidity.zero_snapshot liq;
     Sniper.total_supply := 0;
     Sniper.balance_wei := 5000000000000000000;
     Sniper.swap_result := Some "0xswap" |}.

(** A swap payload of the 0x API with its allowance target. *)
Definition swap_payload : Swap.Dict :=
  [("allowanceTarget", Swap.VScalar (Swap.SStr "0xholder"));
   ("transaction",
    Swap.VDict [("to", Swap.SStr "0xrouter"); ("data", Swap.SStr "0x");
                ("value", Swap.SInt 0); ("gas", Swap.SInt 200000)])].

Definition receipt_ok : Swap.Receipt :=
  {| Swap.status := 1; Swap.receipt_block := 104; Swap.gasUsed := 150000 |}.

(** Only 0x answers, with the payload above; the other providers raise. *)
Definition only_0x (p : Swap.Provider) : Swap.Http :=
  match p with
  | Swap.ZeroEx => Swap.HttpStatus 200 (Some swap_payload)
  | _ => Swap.HttpRaised
  end.

(** Only Uniswap would answer; 0x and the others report a 404. *)
Definition only_uniswap (p : Swap.Provider) : Swap.Http :=
  match p with
  | Swap.Uniswap => Swap.HttpStatus 200 (Some swap_payload)
  | _ => Swap.HttpStatus 404 None
  end.

(** A chain on which every call succeeds, with the given allowance and
    the given answer to the sending of the approval. *)
Definition world_with (http : Swap.Provider -> Swap.Http) (allowance : Z)
    (approval_sent : option string) : Swap.World :=
  {| Swap.quote_http := http; Swap.swap_http := http;
     Swap.allowance_call := Some allowance;
     Swap.approve_nonce := Some 7; Swap.approve_gas_price := Some 1000;
     Swap.approve_signed := Some "0xrawapprove";
     Swap.approve_sent := approval_sent;
     Swap.approve_receipt := Some receipt_ok;
     Swap.swap_gas_price := Some 1000; Swap.swap_nonce := Some 8;
     Swap.swap_signed := Some "0xrawswap";
     Swap.swap_sent := Some "0xswaphash";
     Swap.swap_receipt := Some receipt_ok |}.

End Samples.

(** ** More on the event watcher: what the reachable states look like *)

Module WatcherMore.
Import PyStr Watcher.

(** The three detection tables tell one story: the known tokens are the
    keys of the last-block table, every processed pair is of a known
    token, and every known token has a processed pair. *)
Definition consistent (st : Monitor) : Prop :=
  known_tokens st = dom (token_last_block st) /\
  (forall k, k ∈ processed_events st -> k.1 ∈ known_tokens st) /\
  (forall token, token ∈ known_tokens st -> exists tx, (token, tx) ∈ processed_events st).

(** No token's recorded block goes back from [st] to [st']. *)
Definition last_blocks_le (st st' : Monitor) : Prop :=
  forall token b, token_last_block st !! token = Some b ->
    exists b', token_last_block st' !! token = Some b' /\ b <= b'.

(** A gateway whose height read raises. *)
Definition dead_chain : Chain :=
  {| block_number := None; get_logs := fun _ _ => Some [] |}.

(** A transfer of token A to some other wallet. *)
Definition transfer_to_other : Log :=
  {| address := "0xAAAAAAAAAAAAAAAAAAAAAAAAAAAAAAAAAAAAAAAA";
     transactionHash := "0x09";
     topics :=
       ["0xddf252ad1be2c89b69c2b068fc378daa952ba7f163c4a11628f55a4df523b3ef";
        "0x0000000000000000000000001111111111111111111111111111111111111111";
        "0x0000000000000000000000002222222222222222222222222222222222222222"];
     blockNumber := 100 |}.

End WatcherMore.

(** ** The retry discipline of the two watch loops ([auto_swap.py],
    [monitor_loop_polling] and [monitor_loop_websocket]) *)

Module Loops.

(** [max_retries = 5] in both loops. *)
Definition max_retries : Z := 5.

(** One turn of [monitor_loop_polling] as far as the retry counter goes:
    the turn raised or not; the new counter and the seconds slept. *)
Definition poll_turn (monitor_interval retry_count : Z) (raised : bool) : Z * Z :=
  if raised then
    let retry_count := retry_count + 1 in
    if max_retries <=? retry_count then (0, 10) else (retry_count, 5)
  else (0, monitor_interval).

Fixpoint poll_turns (monitor_interval retry_count : Z) (turns : list bool) : Z * list Z :=
  match turns with
  | [] => (retry_count, [])
  | raised :: rest =>
      let '(retry_count', pause) := poll_turn monitor_interval retry_count raised in
      let '(final, pauses) := poll_turns monitor_interval retry_count' rest in
      (final, pause :: pauses)
  end.

(** The pause after the [i]-th raising turn in a row (counted from 1),
    when the counter stood at [retry_count] before the first of them. *)
Definition pause_after (retry_count : Z) (i : nat) : Z :=
  if (retry_count + Z.of_nat i) mod max_retries =? 0 then 10 else 5.

(** How one turn of the outer loop of [monitor_loop_websocket] ends: the
    connection could not be opened; the session ended by the [break] of
    the message loop; or something raised after the connection stood. *)
Inductive Attempt :=
| ConnectFailed
| SessionBroke
| SessionRaised.

(** Where the watcher stands: subscribing with its retry counter, or in
    the polling loop for good. *)
Inductive Watch :=
| Subscribing (retry_count : Z)
| PollingForGood.

(** One turn of the outer loop: the new standing and the seconds slept
    before the next turn, if any. *)
Definition ws_turn (retry_count : Z) (a : Attempt) : Watch * option Z :=
  match a with
  | SessionBroke => (Subscribing 0, None)
  | ConnectFailed =>
      let retry_count := retry_count + 1 in
      if max_retries <=? retry_count then (PollingForGood, None)
      else (Subscribing retry_count, Some 5)
  | SessionRaised =>
      let retry_count := 0 + 1 in
      if max_retries <=? retry_count then (PollingForGood, None)
      else (Subscribing retry_count, Some 5)
  end.

Fixpoint ws_turns (w : Watch) (attempts : list Attempt) : Watch :=
  match w, attempts with
  | PollingForGood, _ => PollingForGood
  | Subscribing _, [] => w
  | Subscribing retry_count, a :: rest => ws_turns (ws_turn retry_count a).1 rest
  end.

(** [start_monitoring] and the two early exits of
    [monitor_loop_websocket]: [config.ENABLE_WEBSOCKET], whether the
    websockets package could be imported, and [WS_RPC_URL]. *)
Definition start_monitoring (enable_websocket websockets_imported : bool)
    (wss_url : string) : Watch :=
  if enable_websocket then
    if negb websockets_imported then PollingForGood
    else if decide (wss_url = "") then PollingForGood
    else Subscribing 0
  else PollingForGood.

(** The longest run of failed connections in a row; [current] is the run
    the list starts in. *)
Fixpoint longest_failed_run (current : nat) (attempts : list Attempt) : nat :=
  match attempts with
  | [] => current
  | ConnectFailed :: rest => longest_failed_run (S current) rest
  | _ :: rest => Nat.max current (longest_failed_run 0 rest)
  end.

End Loops.

(** ** The security gate ([auto_swap.py], [SecurityChecker]) *)

Module Security.
Import PyStr.

(** [Config.__init__], lines 94-99: a list of addresses as the set of
    their lower-case spellings. *)
Definition lowered (addresses : list string) : gset string :=
  list_to_set (map lower addresses).

(** The part of [Config] the checker reads. *)
Record Config := mkConfig {
  blacklist_tokens : gset string;
  whitelist_tokens : gset string;
  max_gas_price_gwei : Q
}.

(** [SecurityChecker.is_in_whitelist]: an empty whitelist lets every
    token pass. *)
Definition is_in_whitelist (cfg : Config) (token_address : string) : bool :=
  let token_addr := lower token_address in
  if decide (whitelist_tokens cfg = ∅) then true
  else bool_decide (token_addr ∈ whitelist_tokens cfg).

(** [SecurityChecker.is_in_blacklist] *)
Definition is_in_blacklist (cfg : Config) (token_address : string) : bool :=
  let token_addr := lower token_address in
  bool_decide (token_addr ∈ blacklist_tokens cfg).

(** What the chain answers about one token: [w3.is_address], and the two
    contract reads ([None]: the call raises). *)
Record TokenReads := mkTokenReads {
  is_address : bool;
  decimals_call : option Z;
  total_supply_call : option Z
}.

Inductive Call := CallDecimals | CallTotalSupply.

(** The reason returned with the verdict; the text of [ContractError] is
    followed by the message of the exception. *)
Inductive Reason :=
| InBlacklist
| NotInWhitelist
| InvalidAddress
| ZeroSupply
| ContractError
| TokenValid.

Definition reason_text (r : Reason) : string :=
  match r with
  | InBlacklist => "Token in blacklist"
  | NotInWhitelist => "Token not in whitelist"
  | InvalidAddress => "Invalid token address"
  | ZeroSupply => "Zero total supply"
  | ContractError => "Contract error: "
  | TokenValid => "Token valid"
  end.

(** [SecurityChecker.validate_token]: the verdict, its reason, and the
    contract calls made. *)
Definition validate_token `{Library} (cfg : Config) (reads : TokenReads)
    (token_address : string) : bool * Reason * list Call :=
  if is_in_blacklist cfg token_address then (false, InBlacklist, [])
  else if negb (is_in_whitelist cfg token_address) then (false, NotInWhitelist, [])
  else if negb (is_address reads) then (false, InvalidAddress, [])
  else
    match to_checksum_address token_address with
    | None => (false, ContractError, [])
    | Some _ =>
        match decimals_call reads with
        | None => (false, ContractError, [CallDecimals])
        | Some _ =>
            match total_supply_call reads with
            | None => (false, ContractError, [CallDecimals; CallTotalSupply])
            | Some total_supply =>
                if total_supply =? 0
                then (false, ZeroSupply, [CallDecimals; CallTotalSupply])
                else (true, TokenValid, [CallDecimals; CallTotalSupply])
            end
        end
    end.

(** [w3.from_wei(gas_price_wei, 'gwei')]: an exact decimal. *)
Definition gwei_of_wei (wei : Z) : Q := (inject_Z wei / 1000000000)%Q.

(** [SecurityChecker.check_gas_price]; [gas_price] is the answer of
    [w3.eth.gas_price], [None] when the read raises. *)
Definition check_gas_price (cfg : Config) (gas_price : option Z) : bool * Q :=
  match gas_price with
  | None => (false, 0%Q)
  | Some gas_price_wei =>
      let gas_price_gwei := gwei_of_wei gas_price_wei in
      if Liquidity.Qltb (max_gas_price_gwei cfg) gas_price_gwei
      then (false, gas_price_gwei)
      else (true, gas_price_gwei)
  end.

(** Sample lists: the default blacklist of [config.py] with one more
    token, written in mixed case, and no whitelist; a ceiling of 500 gwei
    as in [config.MAX_GAS_PRICE]. *)
Definition sample_cfg : Config :=
  {| blacklist_tokens :=
       lowered ["0x0000000000000000000000000000000000000000";
                "0xBADbadBADbadBADbadBADbadBADbadBADbadBADb"];
     whitelist_tokens := lowered [];
     max_gas_price_gwei := 500 |}.

Definition live_token : TokenReads :=
  {| is_address := true; decimals_call := Some 18; total_supply_call := Some 1000000 |}.

End Security.

(** ** The per-token pipeline ([auto_swap.py], [AutoSellBot]) *)

Module Pipeline.
Import PyStr.

(** The table of [_get_wrapped_native_token] (the same in
    [sniper_sell.py]). *)
Definition wrapped_addresses : gmap Z string :=
  list_to_map
    [(1, "0xC02aaA39b223FE8D0A0e8e4F27ead9083C756Cc2");
     (56, "0xbb4CdB9CBd36B01bD1cbaEBF2De08d9173bc095c");
     (137, "0x0d500B1d8E8eF31E21C99d1Db9A6444d3ADf1270");
     (8453, "0x4200000000000000000000000000000000000006");
     (43114, "0xB31f66AA3C1e785363F0875A1B74789A8B9b05409");
     (250, "0x74b23882a30290451A17c44f4F05a28f9A20be19")].

(** [AutoSellBot._get_wrapped_native_token] *)
Definition _get_wrapped_native_token (chain_id : Z) : string :=
  match wrapped_addresses !! chain_id with
  | Some wrapped => if decide (wrapped = "") then "0xC02aaA39b223FE8D0A0e8e4F27ead9083C756Cc2" else wrapped
  | None => "0xC02aaA39b223FE8D0A0e8e4F27ead9083C756Cc2"
  end.

(** The part of [Config] the pipeline reads, with the executor's wallet. *)
Record Bot := mkBot {
  chain_id : Z;
  safe_mode : bool;
  min_liquidity_usd : Q;
  security : Security.Config;
  executor_address : string
}.

(** What the outside answers while one token is processed. [balance] is
    what [Web3Manager.get_balance] returns ([None]: it raises);
    [to_wei balance decimals] stands for [int(balance * 10 ** decimals)]
    on Python's [Decimal]. *)
Record Reads := mkReads {
  token_reads : Security.TokenReads;
  balance : option Q;
  gas_price : option Z;
  http_get : string -> Liquidity.Response;
  decimals_again : option Z;
  to_wei : Q -> Z -> Z;
  swap_world : Swap.World
}.

(** The stages that reach outside, as they are entered. *)
Inductive Stage :=
| StValidate
| StBalance
| StGas
| StLiquidity
| StDecimals
| StSwap.

(** Where [process_token] ends. [Crashed] is the outer [except]. *)
Inductive Ending :=
| SkippedNative
| Rejected (reason : Security.Reason)
| Crashed
| NoBalance
| GasTooHigh
| Illiquid
| Swapped (amount_wei : Z) (tx_hash : option string) (calls : list Swap.Event).

(** Step 5 of [process_token]: decimals (18 when the read raises), the
    amount, the swap. *)
Definition sell_all `{Library} (bot : Bot) (r : Reads) (token_address : string)
    (balance : Q) : Ending :=
  match to_checksum_address token_address with
  | None => Crashed
  | Some _ =>
      let decimals := default 18 (decimals_again r) in
      let amount_wei := to_wei r balance decimals in
      let '(tx_hash, calls) :=
        Swap.execute_swap (executor_address bot) (swap_world r) token_address
          (_get_wrapped_native_token (chain_id bot)) amount_wei in
      Swapped amount_wei tx_hash calls
  end.

(** [AutoSellBot.process_token]: where it ends and the stages entered. *)
Definition process_token `{Library} (bot : Bot) (r : Reads) (token_address : string)
    : Ending * list Stage :=
  let native_token := _get_wrapped_native_token (chain_id bot) in
  if decide (lower token_address = lower native_token) then (SkippedNative, [])
  else
    let verdict :=
      if safe_mode bot
      then Some (Security.validate_token (security bot) (token_reads r) token_address)
      else None in
    let validated := if safe_mode bot then [StValidate] else [] in
    match verdict with
    | Some (false, reason, _) => (Rejected reason, validated)
    | _ =>
        match balance r with
        | None => (Crashed, validated ++ [StBalance])
        | Some balance =>
            if Qle_bool balance 0 then (NoBalance, validated ++ [StBalance])
            else
              let '(gas_ok, _) := Security.check_gas_price (security bot) (gas_price r) in
              if negb gas_ok && safe_mode bot
              then (GasTooHigh, validated ++ [StBalance; StGas])
              else
                let liquidity_info :=
                  (Liquidity.check_liquidity_dexscreener (http_get r) token_address).1 in
                if negb (Liquidity.is_tradeable (min_liquidity_usd bot) liquidity_info)
                then (Illiquid, validated ++ [StBalance; StGas; StLiquidity])
                else
                  match sell_all bot r token_address balance with
                  | Crashed =>
                      (Crashed, validated ++ [StBalance; StGas; StLiquidity])
                  | ending =>
                      (ending,
                       validated ++ [StBalance; StGas; StLiquidity; StDecimals; StSwap])
                  end
        end
    end%list.

(** The stages in the order of the source. *)
Definition all_stages (bot : Bot) : list Stage :=
  ((if safe_mode bot then [StValidate] else []) ++
   [StBalance; StGas; StLiquidity; StDecimals; StSwap])%list.

Definition swapped (e : Ending) : bool :=
  match e with
  | Swapped _ _ _ => true
  | _ => false
  end.

(** A library that knows an address by its length alone, as far as the
    length goes: 42 characters. *)
Definition length_checking_library : Library :=
  {| to_checksum_address := fun s => if (String.length s =? 42)%nat then Some s else None;
     int_of_str := fun _ => None |}.

(** A bot on Base in safe mode, and reads under which every gate
    passes. *)
Definition base_bot : Bot :=
  {| chain_id := 8453; safe_mode := true; min_liquidity_usd := 3000;
     security := Security.sample_cfg; executor_address := Samples.my_wallet |}.

Definition avalanche_bot : Bot :=
  {| chain_id := 43114; safe_mode := true; min_liquidity_usd := 3000;
     security := Security.sample_cfg; executor_address := Samples.my_wallet |}.

Definition good_reads : Reads :=
  {| token_reads := Security.live_token;
     balance := Some 5%Q;
     gas_price := Some 2000000000;
     http_get := Samples.oracle_three_pairs;
     decimals_again := Some 18;
     to_wei := fun _ _ => 5000000000000000000;
     swap_world := Samples.world_with Samples.only_0x 0 (Some "0xapprovehash") |}.

End Pipeline.

(** ** More on the swap executor: the order of its calls *)

Module SwapMore.
Import Swap.

(** The place of a call in [execute_swap], in the order of the source
    lines that make it. *)
Definition stage_rank (e : Event) : nat :=
  match e with
  | EvQuote _ => 0
  | EvSwapData _ => 1
  | EvAllowanceRead _ _ => 2
  | EvApproveCalled _ _ _ => 3
  | EvApproveSent _ _ _ => 4
  | EvApproveWaited => 5
  | EvSwapSigned _ => 6
  | EvSwapSent => 7
  | EvSwapWaited => 8
  end.

(** A payload whose transaction names its own gas price. *)
Definition payload_with_gas_price : Dict :=
  [("allowanceTarget", VScalar (SStr "0xholder"));
   ("transaction",
    VDict [("to", SStr "0xrouter"); ("data", SStr "0x");
           ("value", SInt 0); ("gas", SInt 200000); ("gasPrice", SInt 1000)])].

(** A chain on which everything answers but the gas-price read made
    while the swap is built; the allowance is ample. *)
Definition no_gas_price_world : World :=
  {| quote_http := fun _ => HttpStatus 200 (Some payload_with_gas_price);
     swap_http := fun _ => HttpStatus 200 (Some payload_with_gas_price);
     allowance_call := Some 5000;
     approve_nonce := Some 7; approve_gas_price := Some 1000;
     approve_signed := Some "0xrawapprove";
     approve_sent := Some "0xapprovehash";
     approve_receipt := Some Samples.receipt_ok;
     swap_gas_price := None; swap_nonce := Some 8;
     swap_signed := Some "0xrawswap";
     swap_sent := Some "0xswaphash";
     swap_receipt := Some Samples.receipt_ok |}.

(** A chain with no allowance on which the nonce of the approve
    transaction cannot be read; every other call answers. *)
Definition no_nonce_world : World :=
  {| quote_http := Samples.only_0x; swap_http := Samples.only_0x;
     allowance_call := Some 0;
     approve_nonce := None; approve_gas_price := Some 1000;
     approve_signed := Some "0xrawapprove";
     approve_sent := Some "0xapprovehash";
     approve_receipt := Some Samples.receipt_ok;
     swap_gas_price := Some 1000; swap_nonce := Some 8;
     swap_signed := Some "0xrawswap";
     swap_sent := Some "0xswaphash";
     swap_receipt := Some Samples.receipt_ok |}.

(** A chain on which the approval is mined but reverted. *)
Definition reverted_approval_world : World :=
  {| quote_http := Samples.only_0x; swap_http := Samples.only_0x;
     allowance_call := Some 0;
     approve_nonce := Some 7; approve_gas_price := Some 1000;
     approve_signed := Some "0xrawapprove";
     approve_sent := Some "0xapprovehash";
     approve_receipt := Some {| status := 0; receipt_block := 103; gasUsed := 30000 |};
     swap_gas_price := Some 1000; swap_nonce := Some 8;
     swap_signed := Some "0xrawswap";
     swap_sent := Some "0xswaphash";
     swap_receipt := Some Samples.receipt_ok |}.

End SwapMore.



(** ** The sniper's loop ([sniper_sell.py], [monitor_loop]) *)

Module SniperMore.
Import Liquidity Sniper.

(** The turns of [monitor_loop]: one [check_and_sell] per turn, on the
    tracker the turn before left. *)
Fixpoint run_checks (cfg : Config) (t : Tracker) (turns : list Reads)
    : Tracker * list Ending :=
  match turns with
  | [] => (t, [])
  | r :: turns =>
      let '(t', ending) := check_and_sell cfg t r in
      let '(t'', endings) := run_checks cfg t' turns in
      (t'', ending :: endings)
  end.

(** The check gets past its two early returns (lines 428 and 437). *)
Definition found_tradeable (cfg : Config) (r : Reads) : bool :=
  negb (Qle_bool (balance r) 0) &&
  is_tradeable (min_liquidity_usd cfg) (liquidity_info r).

(** The liquidities of the turns that found the token tradeable. *)
Definition seen (cfg : Config) (turns : list Reads) : list Q :=
  map (fun r => liquidity_usd (liquidity_info r)) (filter (fun r => found_tradeable cfg r = true) turns).

(** A sniper that sells at first sight. *)
Definition eager_cfg : Config :=
  {| min_liquidity_usd := 1000; liquidity_growth_threshold := 1 |}.

End SniperMore.

(** ** More on the liquidity gate: a tie between pools *)

Module LiquidityMore.
Import Liquidity.

(** Three pools of one token, two of them level at the top. *)
Definition first_of_tied : Pair :=
  {| liquidity_usd_field := Number 3500; pairAddress := Some "0xpairB";
     dexId := Some "aerodrome"; priceUsd := Number (1 # 2) |}.

Definition tied_pairs : list Pair :=
  [ {| liquidity_usd_field := Number 1200; pairAddress := Some "0xpairA";
       dexId := Some "uniswap"; priceUsd := Number (1 # 2) |};
    first_of_tied;
    {| liquidity_usd_field := Number 3500; pairAddress := Some "0xpairC";
       dexId := Some "uniswap"; priceUsd := Number (1 # 2) |} ].

End LiquidityMore.

(** ** The request headers of the OKX adapter ([aggregators/okx.py]) *)

Module Okx.

(** The credentials given to [OKXAggregator.__init__]; [None] is
    Python's [None]. The API secret is stored and never read. *)
Record Credentials := mkCredentials {
  api_key : option string;
  api_secret : option string;
  api_passphrase : option string;
  project_id : option string
}.

Definition user_agent : string :=
  "Mozilla/5.0 (Windows NT 10.0; Win64; x64) AppleWebKit/537.36".

(** Python's truth value of an optional string: [None] and the empty
    string are false. *)
Definition truthy (s : option string) : bool :=
  match s with
  | None => false
  | Some s => negb (String.eqb s "")
  end.

(** [OKXAggregator._build_headers] *)
Definition _build_headers (c : Credentials) : gmap string string :=
  let headers : gmap string string :=
    <["Accept" := "application/json"]> (<["User-Agent" := user_agent]> ∅) in
  if truthy (project_id c)
  then <["OK-ACCESS-PROJECT" := default "" (project_id c)]> headers
  else if truthy (api_key c)
  then
    let headers := <["OK-ACCESS-KEY" := default "" (api_key c)]> headers in
    if truthy (api_passphrase c)
    then <["OK-ACCESS-PASSPHRASE" := default "" (api_passphrase c)]> headers
    else headers
  else headers.

End Okx.

(** * Part II: theorems *)

(** ** Text helpers *)

Module PyStrFacts.
Import PyStr.

Lemma lower_ascii_idem c : lower_ascii (lower_ascii c) = lower_ascii c.
Proof. destruct c as [[] [] [] [] [] [] [] []]; vm_compute; reflexivity. Qed.

Lemma lower_idem s : lower (lower s) = lower s.
Proof.
  induction s as [|c s IH]; simpl; [reflexivity|].
  now rewrite lower_ascii_idem, IH.
Qed.

Lemma lower_app s t : lower (s +:+ t) = lower s +:+ lower t.
Proof. induction s as [|c s IH]; simpl; [reflexivity|]. now rewrite IH. Qed.

Example lower_mixed_case : lower "0xAbCdEf01" = "0xabcdef01".
Proof. reflexivity. Qed.

Example last_chars_of_topic :
  last_chars 40 "0x0000000000000000000000001111111111111111111111111111111111111111"
  = "1111111111111111111111111111111111111111".
Proof. reflexivity. Qed.

Example last_chars_of_short_text : last_chars 40 "0x1234" = "0x1234".
Proof. reflexivity. Qed.

End PyStrFacts.

(** ** The event watcher *)

Module WatcherFacts.
Import PyStr PyStrFacts Watcher.

Section Facts.
Context `{Library}.
Variable cfg : Config.

(** Both modes compare the recipient with the same text. *)
Lemma recipient_test_agrees (my topic : string) :
  lower ("0x" +:+ lower (last_chars 40 topic)) = lower my <->
  "0x" +:+ lower (last_chars 40 topic) = lower my.
Proof. rewrite lower_app, lower_idem. reflexivity. Qed.

(** A log either leaves the state alone and is skipped, or it is fresh, out
    of cooldown, and recorded. *)
Lemma watch_log_inv m my st log st' o :
  watch_log cfg m my st log = (st', o) ->
  (st' = st /\ o = Skipped) \/
  ((event_key log ∉ processed_events st) /\
   addressed_to my log /\
   in_cooldown cfg st (lower (address log)) (blockNumber log) = false /\
   st' = record_token st (lower (address log)) (transactionHash log) (blockNumber log) /\
   match o with
   | Emitted token => to_checksum_address (lower (address log)) = Some token
   | Raised => to_checksum_address (lower (address log)) = None
   | Skipped => False
   end).
Proof.
  unfold watch_log, poll_log, ws_log, event_key, addressed_to.
  destruct m; intros Heq;
    repeat (case_decide || case_match); simplify_eq;
    try (left; split; reflexivity);
    right; split_and!; try done;
    eexists; (split; [reflexivity|]); try done;
    by apply recipient_test_agrees.
Qed.

(** What happens to a fresh transfer to the wallet. *)
Lemma watch_log_matched m my st log :
  addressed_to my log ->
  event_key log ∉ processed_events st ->
  watch_log cfg m my st log =
    if in_cooldown cfg st (lower (address log)) (blockNumber log) then (st, Skipped)
    else (record_token st (lower (address log)) (transactionHash log) (blockNumber log),
          match to_checksum_address (lower (address log)) with
          | Some token => Emitted token
          | None => Raised
          end).
Proof.
  intros (topic & Htopic & Hto) Hfresh. unfold event_key in Hfresh.
  assert (Hlen : (3 <=? length (topics log))%nat = true).
  { apply Nat.leb_le. apply lookup_lt_Some in Htopic. lia. }
  destruct m; unfold watch_log, poll_log, ws_log; rewrite Hlen, Htopic.
  - rewrite decide_False by assumption. rewrite decide_True by assumption.
    destruct (in_cooldown _ _ _ _); [reflexivity|]. now destruct (to_checksum_address _).
  - rewrite decide_True by (now apply recipient_test_agrees).
    rewrite decide_False by assumption.
    destruct (in_cooldown _ _ _ _); [reflexivity|]. now destruct (to_checksum_address _).
Qed.

(** A key already processed is skipped, whatever else the log says. *)
Lemma watch_log_processed m my st log :
  event_key log ∈ processed_events st ->
  watch_log cfg m my st log = (st, Skipped).
Proof.
  intros Hin. destruct (watch_log cfg m my st log) as [st' o] eqn:Heq.
  apply watch_log_inv in Heq as [[-> ->] | (Hfresh & _)]; [reflexivity | contradiction].
Qed.

(** The processed set only grows, and an emitted key is in it. *)
Lemma watch_log_processed_mono m my st log :
  processed_events st ⊆ processed_events (watch_log cfg m my st log).1.
Proof.
  destruct (watch_log cfg m my st log) as [st' o] eqn:Heq.
  apply watch_log_inv in Heq as [[-> ->] | (_ & _ & _ & -> & _)]; simpl; set_solver.
Qed.

Lemma watch_log_emitted_marked m my st log st' token :
  watch_log cfg m my st log = (st', Emitted token) ->
  (event_key log ∉ processed_events st) /\
  event_key log ∈ processed_events st' /\
  lower (address log) ∈ known_tokens st' /\
  token_last_block st' !! lower (address log) = Some (blockNumber log) /\
  to_checksum_address (lower (address log)) = Some token.
Proof.
  intros Heq. apply watch_log_inv in Heq as [[_ [=]] | (Hfresh & _ & _ & -> & Hsum)].
  unfold event_key, record_token; simpl. repeat split; try assumption.
  - set_solver.
  - case_decide; set_solver.
  - apply lookup_insert_eq.
Qed.

#[local] Instance extends_refl : Reflexive extends.
Proof. intros st. unfold extends. set_solver. Qed.

#[local] Instance extends_trans : Transitive extends.
Proof. intros a b c. unfold extends. set_solver. Qed.

Lemma record_token_extends st token tx b : extends st (record_token st token tx b).
Proof.
  unfold extends, record_token; simpl. split_and!.
  - set_solver.
  - case_decide; set_solver.
  - rewrite dom_insert_L. set_solver.
Qed.

Lemma watch_log_extends m my st log : extends st (watch_log cfg m my st log).1.
Proof.
  destruct (watch_log cfg m my st log) as [st' o] eqn:Heq.
  apply watch_log_inv in Heq as [[-> ->] | (_ & _ & _ & -> & _)]; simpl;
    [reflexivity | apply record_token_extends].
Qed.

Lemma watch_log_last_block m my st log :
  last_block_scanned (watch_log cfg m my st log).1 = last_block_scanned st.
Proof.
  destruct (watch_log cfg m my st log) as [st' o] eqn:Heq.
  apply watch_log_inv in Heq as [[-> ->] | (_ & _ & _ & -> & _)]; reflexivity.
Qed.

Lemma marked_extends st st' token log :
  extends st st' -> marked st token log -> marked st' token log.
Proof. unfold extends, marked. set_solver. Qed.

Lemma watch_log_emitted_marked' m my st log st' token :
  watch_log cfg m my st log = (st', Emitted token) -> marked st' token log.
Proof.
  intros Heq. apply watch_log_emitted_marked in Heq as (_ & ? & ? & Hlast & ?).
  unfold marked. split_and!; try done. apply elem_of_dom. eauto.
Qed.

(** The polling loop: the state only grows, the scan marker is left alone,
    and every new token comes from a log that is marked at the end. *)
Lemma scan_logs_spec my logs : forall st st' new_tokens finished,
  scan_logs cfg (lower my) st logs = (st', new_tokens, finished) ->
  extends st st' /\
  last_block_scanned st' = last_block_scanned st /\
  forall token, token ∈ new_tokens -> exists log, log ∈ logs /\ marked st' token log.
Proof.
  induction logs as [|log rest IH]; intros st st' new_tokens finished; simpl.
  - intros [= <- <- <-]. split_and!; [reflexivity | reflexivity | set_solver].
  - pose proof (watch_log_extends Polling my st log) as Hext.
    pose proof (watch_log_last_block Polling my st log) as Hlast.
    pose proof (watch_log_emitted_marked' Polling my st log) as Hmark.
    simpl in Hext, Hlast, Hmark.
    destruct (poll_log cfg (lower my) st log) as [st1 [|token|]]; simpl in *.
    + intros Heq. apply IH in Heq as (Hext' & Hlast' & Htok).
      split_and!; [by etrans | congruence |].
      intros token Hin. destruct (Htok token Hin) as (l & ? & ?). exists l. set_solver.
    + destruct (scan_logs cfg (lower my) st1 rest) as [[st2 toks] fin] eqn:Hrest.
      intros [= <- <- <-]. apply IH in Hrest as (Hext' & Hlast' & Htok).
      split_and!; [by etrans | congruence |].
      intros token' [->|Hin]%elem_of_cons.
      * exists log. split; [set_solver|]. eapply marked_extends; [exact Hext'|]. by eapply Hmark.
      * destruct (Htok token' Hin) as (l & ? & ?). exists l. set_solver.
    + intros [= <- <- <-]. split_and!; [done | done | set_solver].
Qed.

Lemma set_last_block_scanned_extends st b : extends st (set_last_block_scanned st b).
Proof. unfold extends; simpl. set_solver. Qed.

Lemma marked_set_last_block_scanned st b token log :
  marked st token log -> marked (set_last_block_scanned st b) token log.
Proof. apply marked_extends, set_last_block_scanned_extends. Qed.

(** One polling cycle: the state grows and the new tokens are marked. *)
Lemma scan_recent_blocks_spec st num_blocks chain st' new_tokens :
  scan_recent_blocks cfg st num_blocks chain = (st', new_tokens) ->
  extends st st' /\
  forall token, token ∈ new_tokens ->
    exists log, carries log (Cycle chain) /\ marked st' token log.
Proof.
  unfold scan_recent_blocks, scan_range.
  destruct (block_number chain) as [current|]; [|intros [= <- <-]; split; [done|set_solver]].
  destruct (get_logs chain _ _) as [logs|] eqn:Hlogs; [|intros [= <- <-]; split; [done|set_solver]].
  destruct (to_checksum_address (wallet cfg)) as [my|]; [|intros [= <- <-]; split; [done|set_solver]].
  destruct (scan_logs cfg (lower my) st logs) as [[st1 toks] fin] eqn:Hscan.
  apply scan_logs_spec in Hscan as (Hext & _ & Htok).
  destruct fin; intros [= <- <-].
  - split; [etrans; [exact Hext|apply set_last_block_scanned_extends]|].
    intros token Hin. destruct (Htok token Hin) as (l & ? & ?).
    exists l. split; [simpl; eauto|]. by apply marked_set_last_block_scanned.
  - split; [done|]. intros token Hin. destruct (Htok token Hin) as (l & ? & ?).
    exists l. split; [simpl; eauto|done].
Qed.

(** One input of the watcher: the state grows; every call of the handler
    sees the state in which its log is already marked. *)
Lemma step_spec callback st i st' calls :
  step cfg callback st i = (st', calls) ->
  extends st st' /\
  forall c, c ∈ calls ->
    seen c = st' /\ raised c = negb (callback st' (handed c)) /\
    exists log, carries log i /\ marked st' (handed c) log.
Proof.
  destruct i as [chain|log]; simpl.
  - unfold poll_iteration.
    destruct (scan_recent_blocks cfg st (monitor_interval cfg) chain) as [st1 toks] eqn:Hscan.
    intros [= <- <-]. apply scan_recent_blocks_spec in Hscan as (Hext & Htok).
    split; [done|]. intros c (token & -> & Hin)%list_elem_of_fmap. simpl. eauto.
  - unfold ws_message.
    destruct (to_checksum_address (wallet cfg)) as [my|]; [|intros [= <- <-]; split; [done|set_solver]].
    pose proof (watch_log_extends Subscription my st log) as Hext.
    pose proof (watch_log_emitted_marked' Subscription my st log) as Hmark.
    simpl in Hext, Hmark.
    destruct (ws_log cfg my st log) as [st1 [|token|]]; intros [= <- <-];
      (split; [done|]); [set_solver| |set_solver].
    intros c ->%list_elem_of_singleton. simpl. split_and!; try done.
    exists log. split; [done|]. by eapply Hmark.
Qed.

Lemma run_extends callback inputs : forall st, extends st (run cfg callback st inputs).1.
Proof.
  induction inputs as [|i rest IH]; intros st; simpl; [reflexivity|].
  destruct (step cfg callback st i) as [st1 calls] eqn:Hstep.
  apply step_spec in Hstep as (Hext & _). specialize (IH st1).
  destruct (run cfg callback st1 rest) as [st2 calls']. simpl in *. by etrans.
Qed.

(** The handler has no say in what the watcher records or emits. *)
Lemma step_handler_irrelevant cb1 cb2 st i :
  (step cfg cb1 st i).1 = (step cfg cb2 st i).1 /\
  map handed (step cfg cb1 st i).2 = map handed (step cfg cb2 st i).2.
Proof.
  destruct i as [chain|log]; simpl.
  - unfold poll_iteration. destruct (scan_recent_blocks _ _ _ _) as [st1 toks]. simpl.
    split; [done|]. rewrite !map_map. done.
  - unfold ws_message. destruct (to_checksum_address _); [|done].
    destruct (ws_log _ _ _ _) as [st1 [|token|]]; done.
Qed.

Lemma run_handler_irrelevant cb1 cb2 inputs : forall st,
  (run cfg cb1 st inputs).1 = (run cfg cb2 st inputs).1 /\
  map handed (run cfg cb1 st inputs).2 = map handed (run cfg cb2 st inputs).2.
Proof.
  induction inputs as [|i rest IH]; intros st; simpl; [done|].
  destruct (step_handler_irrelevant cb1 cb2 st i) as [Hst Htok].
  destruct (step cfg cb1 st i) as [s1 c1], (step cfg cb2 st i) as [s2 c2].
  simpl in *. subst s2. destruct (IH s1) as [Hst' Htok'].
  destruct (run cfg cb1 s1 rest) as [s1' c1'], (run cfg cb2 s1 rest) as [s2' c2'].
  simpl in *. split; [done|]. rewrite !map_app. congruence.
Qed.

(** Emitted keys are new, distinct, and end up processed. *)
Lemma emitted_events_fresh my ds : forall st k,
  k ∈ processed_events st -> k ∉ emitted_events cfg my st ds.
Proof.
  induction ds as [|[m log] rest IH]; intros st k Hin; simpl; [set_solver|].
  pose proof (watch_log_processed_mono m my st log) as Hmono.
  destruct (watch_log cfg m my st log) as [st' o] eqn:Heq. simpl in Hmono.
  assert (Hrest : k ∉ emitted_events cfg my st' rest) by (apply IH; set_solver).
  destruct o as [|token|]; try done.
  apply watch_log_emitted_marked in Heq as (Hfresh & _).
  apply not_elem_of_cons. split; [|done]. intros ->. contradiction.
Qed.

Lemma emitted_events_NoDup my ds : forall st, NoDup (emitted_events cfg my st ds).
Proof.
  induction ds as [|[m log] rest IH]; intros st; simpl; [constructor|].
  destruct (watch_log cfg m my st log) as [st' o] eqn:Heq.
  destruct o as [|token|]; try apply IH.
  apply watch_log_emitted_marked in Heq as (_ & Hin & _).
  constructor; [|apply IH]. by apply emitted_events_fresh.
Qed.

(** A complete scan hands over exactly the emitted events of its logs. *)
Lemma scan_logs_emitted my logs : forall st st' new_tokens,
  scan_logs cfg (lower my) st logs = (st', new_tokens, true) ->
  length new_tokens = length (emitted_events cfg my st (map (pair Polling) logs)).
Proof.
  induction logs as [|log rest IH]; intros st st' new_tokens; simpl.
  - by intros [= <- <-].
  - destruct (poll_log cfg (lower my) st log) as [st1 [|token|]]; simpl.
    + apply IH.
    + destruct (scan_logs cfg (lower my) st1 rest) as [[st2 toks] fin] eqn:Hrest.
      intros [= <- <- ->]. simpl. f_equal. by eapply IH.
    + intros [=].
Qed.

(** C1. A (tokenAddress, txHash) pair is emitted at most once in the life
    of a watcher, in polling and in subscription mode and across them:
    (1) a log whose pair is already in processedEvents is skipped and
    leaves the state as it is; (2) over any sequence of deliveries from
    any state, the pairs of the emitted logs are pairwise distinct and
    none was processed before; (3) when a log is emitted and then
    delivered again, the second delivery is skipped, so the two
    deliveries make exactly one emission. *)
Theorem C1_pair_emitted_at_most_once (my : string) :
  (forall m st log,
      event_key log ∈ processed_events st ->
      watch_log cfg m my st log = (st, Skipped) /\
      scan_logs cfg (lower my) st [log] = (st, [], true) /\
      forall callback, (ws_message cfg callback st log).2 = []) /\
  (forall st deliveries,
      NoDup (emitted_events cfg my st deliveries) /\
      forall k, k ∈ processed_events st -> k ∉ emitted_events cfg my st deliveries) /\
  (forall m1 m2 st log st' token,
      watch_log cfg m1 my st log = (st', Emitted token) ->
      watch_log cfg m2 my st' log = (st', Skipped) /\
      emitted_events cfg my st [(m1, log); (m2, log)] = [event_key log]).
Proof.
  split_and!.
  - intros m st log Hin. split_and!.
    + by apply watch_log_processed.
    + pose proof (watch_log_processed Polling my st log Hin) as Hskip.
      simpl in Hskip. simpl. by rewrite Hskip.
    + intros callback. unfold ws_message.
      destruct (to_checksum_address (wallet cfg)) as [my'|]; [|done].
      pose proof (watch_log_processed Subscription my' st log Hin) as Hskip.
      simpl in Hskip. by rewrite Hskip.
  - intros st ds. split; [apply emitted_events_NoDup|].
    intros k. apply emitted_events_fresh.
  - intros m1 m2 st log st' token Heq.
    assert (Hskip : watch_log cfg m2 my st' log = (st', Skipped)).
    { apply watch_log_processed. by apply watch_log_emitted_marked in Heq as (_ & ? & _). }
    split; [done|]. simpl. by rewrite Heq, Hskip.
Qed.


(** The boundary of the window: a transfer exactly DUPLICATE_CHECK_BLOCKS
    blocks after the recorded block is already emitted. *)
Lemma cooldown_boundary (m : Mode) (my : string) (st : Monitor) (log : Log)
    (last_block : Z) :
  addressed_to my log ->
  event_key log ∉ processed_events st ->
  token_last_block st !! lower (address log) = Some last_block ->
  blockNumber log = last_block + DUPLICATE_CHECK_BLOCKS cfg ->
  (watch_log cfg m my st log).1 =
    record_token st (lower (address log)) (transactionHash log) (blockNumber log).
Proof.
  intros Hto Hfresh Hlast Hb.
  rewrite (watch_log_matched m my st log Hto Hfresh).
  unfold in_cooldown. rewrite Hlast. rewrite (proj2 (Z.ltb_ge _ _)) by lia. done.
Qed.

(** C10. The detection state is updated before the handler is called, in
    both modes: (1) every call of the handler, after a polling cycle or a
    subscription message, sees the state in which its log's pair is in
    processedEvents, its token in knownTokens and in tokenLastBlock;
    (2) what the handler does, raising included, changes neither the
    state nor the tokens handed over in the rest of the run; (3) a pair
    once processed is skipped for the remainder of the run, whatever is
    delivered in between. *)
Theorem C10_marked_before_handler (callback : Handler) :
  (forall st i st' calls,
      step cfg callback st i = (st', calls) ->
      forall c, c ∈ calls ->
        seen c = st' /\ raised c = negb (callback st' (handed c)) /\
        exists log, carries log i /\ marked (seen c) (handed c) log) /\
  (forall other st inputs,
      (run cfg callback st inputs).1 = (run cfg other st inputs).1 /\
      map handed (run cfg callback st inputs).2 = map handed (run cfg other st inputs).2) /\
  (forall st inputs m my log,
      event_key log ∈ processed_events st ->
      watch_log cfg m my (run cfg callback st inputs).1 log =
        ((run cfg callback st inputs).1, Skipped)).
Proof.
  split_and!.
  - intros st i st' calls Hstep c Hc.
    destruct (step_spec callback st i st' calls Hstep) as (_ & Hcalls).
    destruct (Hcalls c Hc) as (Hseen & Hraised & log & Hcar & Hmark).
    split_and!; try done. exists log. by rewrite Hseen.
  - intros other st inputs. apply run_handler_irrelevant.
  - intros st inputs m my log Hin. apply watch_log_processed.
    destruct (run_extends callback inputs st) as (Hsub & _). set_solver.
Qed.

(** *** The polling ranges *)

Lemma scan_recent_blocks_success st n chain :
  cycle_succeeds cfg st n chain = true ->
  exists current,
    block_number chain = Some current /\
    last_block_scanned (scan_recent_blocks cfg st n chain).1 = current /\
    queried_range st n chain = Some (Z.max (current - n) (last_block_scanned st + 1), current).
Proof.
  unfold cycle_succeeds, scan_recent_blocks, queried_range, scan_range.
  destruct (block_number chain) as [current|]; [|done].
  destruct (get_logs chain _ _) as [logs|]; [|done].
  destruct (to_checksum_address (wallet cfg)) as [my|]; [|done].
  destruct (scan_logs cfg (lower my) st logs) as [[st1 toks] fin]. simpl.
  intros ->. exists current. done.
Qed.

Lemma scan_recent_blocks_failure st n chain :
  cycle_succeeds cfg st n chain = false ->
  last_block_scanned (scan_recent_blocks cfg st n chain).1 = last_block_scanned st.
Proof.
  unfold cycle_succeeds, scan_recent_blocks, scan_range.
  destruct (block_number chain) as [current|]; [|done].
  destruct (get_logs chain _ _) as [logs|]; [|done].
  destruct (to_checksum_address (wallet cfg)) as [my|]; [|done].
  destruct (scan_logs cfg (lower my) st logs) as [[st1 toks] fin] eqn:Hscan. simpl.
  intros ->. simpl. by apply scan_logs_spec in Hscan as (_ & ? & _).
Qed.

(** Over cycles whose heights never go back, every range starts after the
    scan marker, the ranges follow each other without touching, and the
    marker does not go back. *)
Lemma ranges_ordered chains : forall st floor,
  last_block_scanned st <= floor ->
  heights_monotone floor chains ->
  Forall (fun r => last_block_scanned st < fst r) (scanned_ranges cfg st chains) /\
  StronglySorted before (scanned_ranges cfg st chains) /\
  last_block_scanned st <= last_block_scanned (after_cycles cfg st chains).
Proof.
  induction chains as [|chain rest IH]; intros st floor Hfloor Hmono; simpl in Hmono |- *.
  - split_and!; [constructor | constructor | unfold after_cycles; simpl; lia].
  - set (n := monitor_interval cfg).
    destruct (cycle_succeeds cfg st n chain) eqn:Hok.
    + destruct (scan_recent_blocks_success st n chain Hok) as (cur & Hcur & Hlast & Hrange).
      rewrite Hrange. rewrite Hcur in Hmono. destruct Hmono as [Hle Hmono].
      destruct (IH (scan_recent_blocks cfg st n chain).1 cur) as (Hall & Hsort & Hfinal);
        [lia | done |].
      rewrite Hlast in Hall, Hfinal. split_and!.
      * constructor; [simpl; lia|].
        eapply Forall_impl; [exact Hall|]. intros r Hr. simpl in *. lia.
      * apply StronglySorted_cons. split; [|done].
        eapply Forall_impl; [exact Hall|]. intros r Hr. unfold before. simpl in *. lia.
      * subst n. unfold after_cycles in *. simpl. lia.
    + pose proof (scan_recent_blocks_failure st n chain Hok) as Hlast.
      assert (Hrest : exists floor', last_block_scanned st <= floor' /\
                                     heights_monotone floor' rest).
      { destruct (block_number chain) as [h|]; [|by eauto].
        destruct Hmono as [? ?]. exists h. split; [lia|done]. }
      destruct Hrest as (floor' & Hfloor' & Hmono').
      destruct (IH (scan_recent_blocks cfg st n chain).1 floor') as (Hall & Hsort & Hfinal);
        [lia | done |].
      rewrite Hlast in Hall, Hfinal.
      assert (Hsame : match queried_range st n chain with
                      | Some r => scanned_ranges cfg (scan_recent_blocks cfg st n chain).1 rest
                      | None => scanned_ranges cfg (scan_recent_blocks cfg st n chain).1 rest
                      end = scanned_ranges cfg (scan_recent_blocks cfg st n chain).1 rest)
        by (by destruct (queried_range st n chain)).
      rewrite Hsame. split_and!; [done | done |].
      subst n. unfold after_cycles in *. simpl. lia.
Qed.

Lemma sorted_ranges_disjoint (ranges : list (Z * Z)) :
  StronglySorted before ranges ->
  forall (i j : nat) r1 r2, (i < j)%nat ->
    ranges !! i = Some r1 -> ranges !! j = Some r2 -> before r1 r2.
Proof.
  induction 1 as [|r ranges Hsort IH Hall]; intros i j r1 r2 Hij Hi Hj; [done|].
  destruct j as [|j]; [lia|]. simpl in Hj. destruct i as [|i]; simpl in Hi.
  - injection Hi as <-. rewrite Forall_forall in Hall. apply Hall.
    by eapply list_elem_of_lookup_2.
  - eapply (IH i j); [lia | done | done].
Qed.

(** C6, as the code has it. A successful polling cycle queries the range
    [max(currentBlock - window, lastBlockScanned + 1), currentBlock],
    where the window is the cycle's num_blocks (monitor_interval), and
    then sets lastBlockScanned to currentBlock, whatever logs came back;
    a cycle that fails leaves lastBlockScanned alone. The range starts
    right after lastBlockScanned when no more than window + 1 blocks are
    new, and when more blocks are new the range starts at currentBlock
    - window, past the blocks in between. While the reported heights do
    not go back, lastBlockScanned does not decrease and the ranges of two
    cycles never share a block. *)
Theorem C6_polling_ranges :
  (forall st chain,
      cycle_succeeds cfg st (monitor_interval cfg) chain = true ->
      exists current,
        block_number chain = Some current /\
        last_block_scanned (scan_recent_blocks cfg st (monitor_interval cfg) chain).1 = current /\
        queried_range st (monitor_interval cfg) chain =
          Some (Z.max (current - monitor_interval cfg) (last_block_scanned st + 1), current) /\
        (current - monitor_interval cfg <= last_block_scanned st + 1 ->
         queried_range st (monitor_interval cfg) chain =
           Some (last_block_scanned st + 1, current)) /\
        (last_block_scanned st + 1 < current - monitor_interval cfg ->
         queried_range st (monitor_interval cfg) chain =
           Some (current - monitor_interval cfg, current))) /\
  (forall st chain,
      cycle_succeeds cfg st (monitor_interval cfg) chain = false ->
      last_block_scanned (scan_recent_blocks cfg st (monitor_interval cfg) chain).1 =
        last_block_scanned st) /\
  (forall st chains,
      heights_monotone (last_block_scanned st) chains ->
      last_block_scanned st <= last_block_scanned (after_cycles cfg st chains) /\
      forall (i j : nat) r1 r2 b, (i < j)%nat ->
        scanned_ranges cfg st chains !! i = Some r1 ->
        scanned_ranges cfg st chains !! j = Some r2 ->
        in_range b r1 -> ~ in_range b r2).
Proof.
  split_and!.
  - intros st chain Hok.
    destruct (scan_recent_blocks_success st _ chain Hok) as (cur & Hcur & Hlast & Hrange).
    exists cur. split_and!; try done; intros Hle; rewrite Hrange; f_equal; f_equal; lia.
  - intros st chain. apply scan_recent_blocks_failure.
  - intros st chains Hmono.
    destruct (ranges_ordered chains st (last_block_scanned st)) as (_ & Hsort & Hfinal);
      [lia | done |].
    split; [done|]. intros i j r1 r2 b Hij Hi Hj Hb1 Hb2.
    pose proof (sorted_ranges_disjoint _ Hsort i j r1 r2 Hij Hi Hj) as Hbefore.
    unfold before, in_range in *. lia.
Qed.

End Facts.

(** The two deliveries of one log, once by polling and once by
    subscription, make one emission. *)
Lemma C1_same_log_twice :
  @emitted_events Samples.plain_library Samples.cfg3 Samples.my_wallet init
    [(Polling, Samples.transfer_a "0x01" 100); (Subscription, Samples.transfer_a "0x01" 100)]
  = [event_key (Samples.transfer_a "0x01" 100)].
Proof.
  apply (proj2 (proj2 (C1_pair_emitted_at_most_once (H:=Samples.plain_library)
                         Samples.cfg3 Samples.my_wallet))
           Polling Subscription init (Samples.transfer_a "0x01" 100)
           Samples.seen_at_100 Samples.token_a_lower).
  vm_compute. reflexivity.
Defined.

(** A handler that raises: the transfer is consumed all the same. *)
Lemma C10_raising_handler_consumes :
  let callback : Handler := fun _ _ => false in
  let r := @run Samples.plain_library Samples.cfg3 callback init
             [Message (Samples.transfer_a "0x01" 100)] in
  map raised r.2 = [true] /\
  @watch_log Samples.plain_library Samples.cfg3 Polling Samples.my_wallet
    (@run Samples.plain_library Samples.cfg3 callback r.1 []).1
    (Samples.transfer_a "0x01" 100)
  = ((@run Samples.plain_library Samples.cfg3 callback r.1 []).1, Skipped).
Proof.
  intros callback r. split; [vm_compute; reflexivity|].
  apply (proj2 (proj2 (C10_marked_before_handler (H:=Samples.plain_library)
                         Samples.cfg3 callback))).
  apply (bool_decide_unpack _). vm_compute. exact I.
Defined.

(** The specification's "no gaps" does not hold: with ten blocks per
    cycle and the chain at height 1000 and then at 2000, the two cycles
    query 990..1000 and 1990..2000; block 1500 is in neither. *)
Lemma C6_blocks_skipped :
  @scanned_ranges Samples.plain_library Samples.cfg3 init
    [Samples.quiet_chain 1000; Samples.quiet_chain 2000] = [(990, 1000); (1990, 2000)] /\
  ~ @spec_no_gaps Samples.plain_library Samples.cfg3 init
      [Samples.quiet_chain 1000; Samples.quiet_chain 2000].
Proof.
  assert (Hranges : @scanned_ranges Samples.plain_library Samples.cfg3 init
            [Samples.quiet_chain 1000; Samples.quiet_chain 2000] = [(990, 1000); (1990, 2000)])
    by (vm_compute; reflexivity).
  split; [exact Hranges|]. intros Hspec.
  destruct (Hspec 1500) as (r & Hin & Hb).
  - vm_compute. split; [reflexivity | discriminate].
  - rewrite Hranges in Hin.
    unfold in_range in Hb.
    apply elem_of_cons in Hin as [-> | Hin]; [simpl in Hb; lia|].
    apply elem_of_cons in Hin as [-> | Hin]; [simpl in Hb; lia|].
    by apply elem_of_nil in Hin.
Qed.

(** The scan marker follows the reported height, also backwards: after
    heights 1000 and 995 it stands at 995. *)
Lemma marker_follows_reported_height :
  last_block_scanned
    (@after_cycles Samples.plain_library Samples.cfg3 init
       [Samples.quiet_chain 1000; Samples.quiet_chain 995]) = 995.
Proof. vm_compute. reflexivity. Qed.

(** The polling ranges on that run: the marker goes up and the two ranges
    share no block. *)
Lemma C6_ranges_of_two_cycles :
  let chains := [Samples.quiet_chain 1000; Samples.quiet_chain 2000] in
  last_block_scanned init
    <= last_block_scanned (@after_cycles Samples.plain_library Samples.cfg3 init chains) /\
  ~ in_range 1000 (1990, 2000).
Proof.
  intros chains.
  destruct (proj2 (proj2 (C6_polling_ranges (H:=Samples.plain_library) Samples.cfg3))
              init chains) as [Hup Hdisjoint].
  - simpl. lia.
  - split; [exact Hup|].
    apply (Hdisjoint 0%nat 1%nat (990, 1000) (1990, 2000) 1000); try reflexivity.
    + lia.
    + unfold in_range. simpl. lia.
Defined.



End WatcherFacts.

(** ** The liquidity gate *)

Module LiquidityFacts.
Import PyStr Liquidity.

Lemma Qltb_lt (x y : Q) : Qltb x y = true <-> (x < y)%Q.
Proof.
  unfold Qltb. rewrite negb_true_iff. split.
  - intros Hb. apply Qnot_le_lt. intros Hle. apply Qle_bool_iff in Hle. congruence.
  - intros Hlt. destruct (Qle_bool y x) eqn:Hb; [|done].
    apply Qle_bool_iff in Hb. by apply Qlt_not_le in Hlt.
Qed.

Lemma Qltb_ge (x y : Q) : Qltb x y = false <-> (y <= x)%Q.
Proof. unfold Qltb. rewrite negb_false_iff. apply Qle_bool_iff. Qed.

Lemma keyed_In pairs : forall ks,
  keyed pairs = Some ks ->
  map fst ks = pairs /\
  forall x k, In (x, k) ks -> float_or_zero (liquidity_usd_field x) = Some k.
Proof.
  induction pairs as [|p rest IH]; intros ks; simpl.
  - intros [= <-]. split; [done|]. intros x k [].
  - destruct (float_or_zero (liquidity_usd_field p)) as [k0|] eqn:Hk; [|done].
    destruct (keyed rest) as [ks'|]; [|done]. intros [= <-].
    destruct (IH ks' eq_refl) as [Hmap Hkeys]. split; [simpl; by f_equal|].
    intros x k [[= <- <-]|Hin]; [done|]. by apply Hkeys.
Qed.

(** [max] returns an element of the list whose key is exceeded by none. *)
Lemma max_from_spec rest : forall best best_key,
  let m := max_from best best_key rest in
  (m = best \/ In m (map fst rest)) /\
  exists km, (km = best_key /\ m = best \/ In (m, km) rest) /\
    (best_key <= km)%Q /\ forall x k, In (x, k) rest -> (k <= km)%Q.
Proof.
  induction rest as [|[y ky] rest IH]; intros best best_key; simpl.
  - split; [by left|]. exists best_key. split_and!; [by left | apply Qle_refl | intros ? ? []].
  - destruct (Qltb best_key ky) eqn:Hcmp.
    + apply Qltb_lt in Hcmp.
      destruct (IH y ky) as [Hin (km & Hkm & Hle & Hall)]. split.
      * destruct Hin as [-> | Hin]; right; [by left | by right].
      * exists km. split_and!.
        -- destruct Hkm as [[-> ->] | Hkm]; right; [by left | by right].
        -- eapply Qle_trans; [apply Qlt_le_weak; exact Hcmp | exact Hle].
        -- intros x k [[= <- <-] | Hx]; [exact Hle | exact (Hall _ _ Hx)].
    + apply Qltb_ge in Hcmp.
      destruct (IH best best_key) as [Hin (km & Hkm & Hle & Hall)]. split.
      * destruct Hin as [-> | Hin]; [by left | right; by right].
      * exists km. split_and!.
        -- destruct Hkm as [[-> ->] | Hkm]; [by left | right; by right].
        -- done.
        -- intros x k [[= <- <-] | Hx];
             [eapply Qle_trans; [exact Hcmp | exact Hle] | exact (Hall _ _ Hx)].
Qed.

Lemma max_by_liquidity_spec pairs best :
  max_by_liquidity pairs = Some best ->
  In best pairs /\
  exists liq, float_or_zero (liquidity_usd_field best) = Some liq /\
    forall x, In x pairs ->
      exists k, float_or_zero (liquidity_usd_field x) = Some k /\ (k <= liq)%Q.
Proof.
  unfold max_by_liquidity. destruct (keyed pairs) as [[|[x0 k0] ks]|] eqn:Hkeyed; try done.
  intros [= <-]. destruct (keyed_In _ _ Hkeyed) as [Hmap Hkeys].
  destruct (max_from_spec ks x0 k0) as [Hin (km & Hkm & Hle & Hall)].
  rewrite <- Hmap. simpl. split.
  - destruct Hin as [-> | Hin]; [by left | by right].
  - exists km. split.
    + destruct Hkm as [[-> ->] | Hkm]; apply Hkeys; [by left | by right].
    + intros x [<- | Hx].
      * exists k0. split; [apply Hkeys; by left | done].
      * apply in_map_iff in Hx as ([x' k] & <- & Hx). exists k. split.
        -- apply Hkeys. by right.
        -- exact (Hall _ _ Hx).
Qed.

(** The snapshot the check builds always carries the flag that its amount
    implies. *)
Lemma check_liquidity_well_formed http_get token_address :
  well_formed (check_liquidity_dexscreener http_get token_address).1.
Proof.
  unfold check_liquidity_dexscreener, well_formed.
  repeat (case_decide || case_match); done.
Qed.

Lemma is_tradeable_well_formed min s :
  (0 < min)%Q -> well_formed s -> is_tradeable min s = spec_is_tradeable min s.
Proof.
  unfold is_tradeable, spec_is_tradeable, well_formed. intros Hmin ->.
  destruct (Qle_bool min (liquidity_usd s)) eqn:Hle; [|apply andb_false_r].
  rewrite andb_true_r. apply Qltb_lt. apply Qle_bool_iff in Hle.
  by eapply Qlt_le_trans.
Qed.

(** C8, as the code has it. isTradeable is true exactly when the
    snapshot's hasLiquidity flag is set and liquidityUsd is at least the
    configured minimum. It is monotone in liquidityUsd, the rest of the
    snapshot (the flag too) held fixed: it never goes from true back to
    false as liquidityUsd grows, and raising liquidityUsd from below the
    minimum to the minimum or above turns false into true when the flag
    is set. On the snapshots of the liquidity check, whose flag is
    liquidityUsd > 0, and with a positive minimum, it is the comparison
    of liquidityUsd with the minimum. *)
Theorem C8_is_tradeable_threshold (min : Q) :
  (forall s,
      is_tradeable min s = true <->
      has_liquidity s = true /\ (min <= liquidity_usd s)%Q) /\
  (forall s low high,
      (low <= high)%Q ->
      is_tradeable min (set_liquidity_usd s low) = true ->
      is_tradeable min (set_liquidity_usd s high) = true) /\
  (forall s low high,
      has_liquidity s = true ->
      (low < min)%Q -> (min <= high)%Q ->
      is_tradeable min (set_liquidity_usd s low) = false /\
      is_tradeable min (set_liquidity_usd s high) = true) /\
  ((0 < min)%Q ->
   (forall http_get token_address,
       let s := (check_liquidity_dexscreener http_get token_address).1 in
       is_tradeable min s = Qle_bool min (liquidity_usd s)) /\
   (forall s low high,
       (low < min)%Q -> (min <= high)%Q ->
       is_tradeable min (with_liquidity s low) = false /\
       is_tradeable min (with_liquidity s high) = true)).
Proof.
  split_and!.
  - intros s. unfold is_tradeable. rewrite andb_true_iff, Qle_bool_iff. done.
  - intros s low high Hle. unfold is_tradeable. simpl.
    intros [Hf Hb]%andb_true_iff. rewrite Hf. simpl.
    apply Qle_bool_iff. apply Qle_bool_iff in Hb. by eapply Qle_trans.
  - intros s low high Hflag Hlow Hhigh. unfold is_tradeable. simpl. rewrite Hflag. simpl.
    split.
    + destruct (Qle_bool min low) eqn:Hb; [|done].
      apply Qle_bool_iff in Hb. by apply Qlt_not_le in Hlow.
    + by apply Qle_bool_iff.
  - intros Hmin. split.
    + intros http_get token_address s.
      apply (is_tradeable_well_formed min s Hmin), check_liquidity_well_formed.
    + intros s low high Hlow Hhigh.
      rewrite !is_tradeable_well_formed by done.
      unfold spec_is_tradeable. simpl. split.
      * destruct (Qle_bool min low) eqn:Hb; [|done].
        apply Qle_bool_iff in Hb. by apply Qlt_not_le in Hlow.
      * by apply Qle_bool_iff.
Qed.

(** The scenario of C8: minimum 3000; a snapshot of the check with
    liquidity 2000 is not tradeable, one with 3500 is. *)
Lemma C8_scenario_2000_3500 :
  is_tradeable 3000 (with_liquidity zero_snapshot 2000) = false /\
  is_tradeable 3000 (with_liquidity zero_snapshot 3500) = true.
Proof.
  apply (proj2 (proj2 (proj2 (proj2 (C8_is_tradeable_threshold 3000))) eq_refl)
           zero_snapshot 2000%Q 3500%Q).
  - reflexivity.
  - discriminate.
Defined.

(** isTradeable is not the threshold comparison alone: a snapshot whose
    flag is not set stays untradeable however far liquidityUsd is raised,
    and with a minimum of 0 the zero-liquidity snapshot passes the
    comparison but is not tradeable. *)
Lemma C8_flag_is_part_of_it :
  is_tradeable 3000 (set_liquidity_usd zero_snapshot 3500) = false /\
  spec_is_tradeable 3000 (set_liquidity_usd zero_snapshot 3500) = true /\
  is_tradeable 0 zero_snapshot = false /\
  spec_is_tradeable 0 zero_snapshot = true /\
  ~ spec_flips_at_threshold 3000.
Proof.
  split_and!; try reflexivity.
  intros Hflip.
  destruct (Hflip zero_snapshot 2000%Q 3500%Q) as [_ Htrue]; [reflexivity | discriminate |].
  discriminate Htrue.
Qed.

Lemma keyed_readable pairs :
  (forall x, In x pairs -> is_Some (float_or_zero (liquidity_usd_field x))) ->
  exists ks, keyed pairs = Some ks /\ length ks = length pairs.
Proof.
  induction pairs as [|x pairs IH]; intros Hall; simpl; [by exists []|].
  destruct (Hall x) as [k Hk]; [by left|]. rewrite Hk.
  destruct IH as (ks & -> & Hlen); [intros y Hy; apply Hall; by right|].
  exists ((x, k) :: ks). split; [done|]. simpl. by rewrite Hlen.
Qed.

Lemma keyed_unreadable pairs x :
  In x pairs -> float_or_zero (liquidity_usd_field x) = None -> keyed pairs = None.
Proof.
  induction pairs as [|y pairs IH]; simpl; [done|]. intros [-> | Hin] Hx.
  - by rewrite Hx.
  - rewrite (IH Hin Hx). by destruct (float_or_zero (liquidity_usd_field y)).
Qed.

(** C9. The liquidity check answers the zero-liquidity snapshot without
    any request for the zero address and for a text that does not start
    with 0x or is not 42 characters long; in every other case it makes
    one request. After a 200 with a non-empty pair list whose USD
    liquidities can all be read, it selects a pair of the list whose USD
    liquidity no other pair exceeds and answers the snapshot of that
    pair: its liquidity, its address, its exchange and its price (the
    zero-liquidity snapshot if the price of that pair cannot be read). A
    request that raises, a status other than 200, a body that cannot be
    read, an empty pair list and a pair whose liquidity cannot be read
    all give the zero-liquidity snapshot. *)
Theorem C9_liquidity_check_total (http_get : string -> Response) (token_address : string) :
  (lower token_address = ZERO_ADDRESS ->
     check_liquidity_dexscreener http_get token_address = (zero_snapshot, [])) /\
  (startswith "0x" token_address = false \/ String.length token_address <> 42%nat ->
     check_liquidity_dexscreener http_get token_address = (zero_snapshot, [])) /\
  (lower token_address <> ZERO_ADDRESS ->
   startswith "0x" token_address = true -> String.length token_address = 42%nat ->
     (check_liquidity_dexscreener http_get token_address).2 = [url_of token_address] /\
     (forall pairs,
        http_get (url_of token_address) = Status 200 (Some pairs) ->
        pairs <> [] ->
        (forall x, In x pairs -> is_Some (float_or_zero (liquidity_usd_field x))) ->
        exists best liq,
          In best pairs /\
          float_or_zero (liquidity_usd_field best) = Some liq /\
          (forall x, In x pairs ->
             exists k, float_or_zero (liquidity_usd_field x) = Some k /\ (k <= liq)%Q) /\
          (check_liquidity_dexscreener http_get token_address).1 =
            match float_or_zero (priceUsd best) with
            | Some price =>
                {| has_liquidity := Qltb 0 liq; liquidity_usd := liq;
                   best_pair := pairAddress best; dex := dexId best;
                   price_usd := Some price |}
            | None => zero_snapshot
            end) /\
     (http_get (url_of token_address) = RequestRaised ->
        (check_liquidity_dexscreener http_get token_address).1 = zero_snapshot) /\
     (forall code body, code <> 200 ->
        http_get (url_of token_address) = Status code body ->
        (check_liquidity_dexscreener http_get token_address).1 = zero_snapshot) /\
     (forall code,
        http_get (url_of token_address) = Status code None \/
        http_get (url_of token_address) = Status code (Some []) ->
        (check_liquidity_dexscreener http_get token_address).1 = zero_snapshot) /\
     (forall code pairs x,
        http_get (url_of token_address) = Status code (Some pairs) ->
        In x pairs -> float_or_zero (liquidity_usd_field x) = None ->
        (check_liquidity_dexscreener http_get token_address).1 = zero_snapshot)).
Proof.
  unfold check_liquidity_dexscreener. split_and!.
  - intros Hzero. by rewrite decide_True.
  - intros Hbad. case_decide; [done|].
    destruct Hbad as [-> | Hlen]; [done|].
    apply Nat.eqb_neq in Hlen. rewrite Hlen. by rewrite orb_true_r.
  - intros Hnz Hpre Hlen. rewrite decide_False by done.
    rewrite Hpre, Hlen. simpl. split_and!.
    + repeat case_match; done.
    + intros pairs -> Hne Hread. simpl.
      destruct pairs as [|p pairs]; [done|].
      destruct (keyed_readable (p :: pairs) Hread) as (ks & Hkeyed & Hlength).
      assert (Hmax : exists best, max_by_liquidity (p :: pairs) = Some best).
      { unfold max_by_liquidity. rewrite Hkeyed.
        destruct ks as [|[x k] ks]; [done|]. by eexists. }
      destruct Hmax as [best Hmax]. rewrite Hmax.
      destruct (max_by_liquidity_spec _ _ Hmax) as (Hin & liq & Hliq & Hall).
      exists best, liq. rewrite Hliq. split_and!; try done.
      by destruct (float_or_zero (priceUsd best)).
    + by intros ->.
    + intros code body Hcode ->. apply Z.eqb_neq in Hcode. by rewrite Hcode.
    + intros code [-> | ->]; by destruct (code =? 200).
    + intros code pairs x -> Hin Hx. destruct (code =? 200); [|done].
      destruct pairs as [|p pairs]; [done|].
      unfold max_by_liquidity. by rewrite (keyed_unreadable _ _ Hin Hx).
Qed.

(** Two malformed inputs and one good lookup: of the three pairs the
    one with 3500 USD is selected. *)
Lemma C9_degenerate_inputs_and_best_pair :
  check_liquidity_dexscreener Samples.oracle_three_pairs ZERO_ADDRESS = (zero_snapshot, []) /\
  check_liquidity_dexscreener Samples.oracle_three_pairs "aaaa" = (zero_snapshot, []) /\
  (check_liquidity_dexscreener Samples.oracle_three_pairs Samples.token_a).2
    = [url_of Samples.token_a] /\
  liquidity_usd (check_liquidity_dexscreener Samples.oracle_three_pairs Samples.token_a).1
    = 3500%Q /\
  best_pair (check_liquidity_dexscreener Samples.oracle_three_pairs Samples.token_a).1
    = Some "0xpair2".
Proof.
  pose proof (C9_liquidity_check_total Samples.oracle_three_pairs ZERO_ADDRESS)
    as (Hzero & _).
  pose proof (C9_liquidity_check_total Samples.oracle_three_pairs "aaaa")
    as (_ & Hshort & _).
  pose proof (C9_liquidity_check_total Samples.oracle_three_pairs Samples.token_a)
    as (_ & _ & Hgood).
  destruct Hgood as (Hurl & Hbest & _); [discriminate | reflexivity | reflexivity |].
  destruct (Hbest Samples.three_pairs eq_refl) as (best & liq & Hin & Hliq & Hall & Hsnap).
  { discriminate. }
  { intros x [<- | [<- | [<- | []]]]; by eexists. }
  assert (Hpair2 : exists k,
             float_or_zero (Number 3500) = Some k /\ (k <= liq)%Q).
  { apply (Hall {| liquidity_usd_field := Number 3500;
                   pairAddress := Some "0xpair2"; dexId := Some "aerodrome";
                   priceUsd := Number (1 # 2) |}).
    right. by left. }
  destruct Hpair2 as (k & [= <-] & Hle).
  assert (Hchosen : best = {| liquidity_usd_field := Number 3500;
                              pairAddress := Some "0xpair2"; dexId := Some "aerodrome";
                              priceUsd := Number (1 # 2) |}).
  { destruct Hin as [<- | [<- | [<- | []]]]; [| done |];
      injection Hliq as <-; apply Qle_bool_iff in Hle; discriminate Hle. }
  subst best. injection Hliq as <-. cbn [float_or_zero priceUsd] in Hsnap.
  split_and!.
  - by apply Hzero.
  - apply Hshort. by left.
  - exact Hurl.
  - by rewrite Hsnap.
  - by rewrite Hsnap.
Defined.

End LiquidityFacts.

(** ** Python's float division *)

Module PyFloatFacts.
Import PrimFloat PyFloat.

(** Rounding depends on the value alone, not on how the rational is
    written. *)
Lemma round64_Qeq (x y : Q) : (x == y)%Q -> round64 x = round64 y.
Proof. intros Heq. unfold round64. by rewrite (Qred_complete x y Heq). Qed.

Lemma div_Qeq (x x' y y' : Q) :
  (x == x')%Q -> (y == y')%Q -> div x y = div x' y'.
Proof. intros Hx Hy. unfold div. apply round64_Qeq. by rewrite Hx, Hy. Qed.

(** A double divided by itself is 1. *)
Lemma div_self (x : Q) : (0 < x)%Q -> div x x = 1%Q.
Proof.
  intros Hx. unfold div. rewrite (round64_Qeq (x / x) 1); [by vm_compute|].
  apply Qmult_inv_r. intros Hz. rewrite Hz in Hx. by apply Qlt_irrefl in Hx.
Qed.

(** On the sample pairs the division written out in the model gives the
    double the processor gives. *)
Lemma div_agrees_with_machine :
  forallb (fun p => agrees_with_machine p.1 p.2) machine_samples = true.
Proof. vm_compute. reflexivity. Qed.

(** The doubles nearest to 1504.35 and 1002.9: their real quotient is
    below 3/2, the quotient the machine computes is 3/2. *)
Lemma div_rounds_to_three_halves :
  let x := round64 (150435 # 100) in
  let y := round64 (10029 # 10) in
  Some x = of_machine 1504.35%float /\
  Some y = of_machine 1002.9%float /\
  (x / y < 3 # 2)%Q /\
  div x y = (3 # 2)%Q /\
  of_machine (PrimFloat.div 1504.35 1002.9) = Some (3 # 2)%Q.
Proof. split_and!; by vm_compute. Qed.

End PyFloatFacts.

(** ** The sniper's growth gate *)

Module SniperFacts.
Import Liquidity LiquidityFacts Sniper.

Lemma finds_tradeable_passes cfg r :
  finds_tradeable cfg r ->
  Qle_bool (balance r) 0 = false /\
  negb (is_tradeable (min_liquidity_usd cfg) (liquidity_info r)) = false.
Proof.
  intros [Hbal ->]. split; [|done].
  destruct (Qle_bool (balance r) 0) eqn:Hb; [|done].
  apply Qle_bool_iff in Hb. by apply Qlt_not_le in Hbal.
Qed.

Lemma sale_started_sell r ratio : sale_started (sell r ratio) = true.
Proof. unfold sell. by repeat case_match. Qed.

Lemma swap_called_sell r ratio :
  swap_called (sell r ratio) = true <-> (0 < total_supply r)%Q /\ 0 < balance_wei r.
Proof.
  unfold sell. destruct (Qle_bool (total_supply r) 0) eqn:Hs.
  - apply Qle_bool_iff in Hs. simpl. split; [done|]. intros [Hlt _].
    by apply Qlt_not_le in Hlt.
  - assert (0 < total_supply r)%Q.
    { apply Qnot_le_lt. intros Hle. apply Qle_bool_iff in Hle. congruence. }
    destruct (balance_wei r <=? 0) eqn:Hw; simpl.
    + apply Z.leb_le in Hw. split; [done|]. lia.
    + apply Z.leb_gt in Hw. done.
Qed.

(** A tracker that has seen liquidity holds a positive initial liquidity,
    as long as the snapshots are those of the liquidity check. *)
Lemma check_and_sell_tracker_ok cfg t r :
  well_formed (liquidity_info r) -> tracker_ok t ->
  tracker_ok (check_and_sell cfg t r).1.
Proof.
  unfold check_and_sell, tracker_ok, well_formed, is_tradeable. intros Hwf Hok.
  destruct (Qle_bool (balance r) 0); [done|].
  destruct (has_liquidity (liquidity_info r)) eqn:Hflag; simpl; [|done].
  destruct (Qle_bool _ _); simpl; [|done].
  destruct (has_liquidity_detected t) eqn:Hseen; simpl.
  - by destruct (Qltb _ (liquidity_growth_threshold cfg)).
  - destruct (Qltb 1 _); simpl; intros _; apply Qltb_lt; congruence.
Qed.

(** C7, as the code has it. A check that finds tradeable liquidity:
    (1) when none was seen before, it records the liquidity as
    initialLiquidity, and it goes on to sell at once exactly when
    growthThreshold <= 1; (2) when liquidity was seen before, it keeps
    initialLiquidity, computes growthRatio = currentLiquidity /
    initialLiquidity, the quotient of the two floats (the real quotient
    rounded to the nearest double), and goes on to sell exactly when
    growthRatio >= growthThreshold; (3) the swap is executed exactly when
    the check goes on to sell and the total supply and the wei balance
    both read positive. *)
Theorem C7_growth_gate (cfg : Config) (t : Tracker) (r : Reads) :
  finds_tradeable cfg r ->
  (has_liquidity_detected t = false ->
     has_liquidity_detected (check_and_sell cfg t r).1 = true /\
     initial_liquidity (check_and_sell cfg t r).1 = liquidity_usd (liquidity_info r) /\
     (sale_started (check_and_sell cfg t r).2 = true <->
        (liquidity_growth_threshold cfg <= 1)%Q)) /\
  (has_liquidity_detected t = true -> (0 < initial_liquidity t)%Q ->
     let growth_ratio :=
       PyFloat.div (liquidity_usd (liquidity_info r)) (initial_liquidity t) in
     initial_liquidity (check_and_sell cfg t r).1 = initial_liquidity t /\
     (sale_started (check_and_sell cfg t r).2 = true <->
        (liquidity_growth_threshold cfg <= growth_ratio)%Q) /\
     ((growth_ratio < liquidity_growth_threshold cfg)%Q ->
        (check_and_sell cfg t r).2 = StillGrowing growth_ratio)) /\
  (swap_called (check_and_sell cfg t r).2 = true <->
     sale_started (check_and_sell cfg t r).2 = true /\
     (0 < total_supply r)%Q /\ 0 < balance_wei r).
Proof.
  intros Hfind. destruct (finds_tradeable_passes cfg r Hfind) as [Hbal Htrade].
  unfold check_and_sell. rewrite Hbal, Htrade. split_and!.
  - intros ->. simpl.
    destruct (Qltb 1 (liquidity_growth_threshold cfg)) eqn:Hthr; simpl; split_and!; try done.
    + apply Qltb_lt in Hthr. split; [done|]. intros Hle. by apply Qlt_not_le in Hthr.
    + apply Qltb_ge in Hthr. by rewrite sale_started_sell.
  - intros -> Hinit. simpl.
    unfold growth_ratio_of. rewrite (proj2 (Qltb_lt _ _) Hinit).
    set (growth_ratio :=
           PyFloat.div (liquidity_usd (liquidity_info r)) (initial_liquidity t)).
    destruct (Qltb growth_ratio (liquidity_growth_threshold cfg)) eqn:Hthr; simpl.
    + apply Qltb_lt in Hthr. split_and!; try done.
      split; [done|]. intros Hle. by apply Qlt_not_le in Hthr.
    + apply Qltb_ge in Hthr. rewrite sale_started_sell. split_and!; try done.
      intros Hlt. by apply Qlt_not_le in Hlt.
  - destruct (has_liquidity_detected t); simpl.
    + destruct (Qltb _ (liquidity_growth_threshold cfg)); simpl.
      * split; [done | by intros [? _]].
      * rewrite sale_started_sell, swap_called_sell. tauto.
    + destruct (Qltb 1 _); simpl.
      * split; [done | by intros [? _]].
      * rewrite sale_started_sell, swap_called_sell. tauto.
Qed.

(** Threshold 1.5, first liquidity 2000: the first check records 2000 and
    waits, a check at 2500 (ratio 1.25) waits, a check at 3000 (ratio
    1.5) sells. And the quotient is the one of the floats: from a first
    liquidity of 1002.9 a check at 1504.35 sells, the ratio of the two
    doubles being 1.5 although their real quotient is below it. *)
Lemma C7_scenario_growth :
  let t1 := (check_and_sell Samples.sniper_cfg fresh (Samples.sniper_reads 2000)).1 in
  let low := PyFloat.round64 (10029 # 10) in
  let high := PyFloat.round64 (150435 # 100) in
  let t2 := (check_and_sell Samples.sniper_cfg fresh (Samples.sniper_reads low)).1 in
  initial_liquidity t1 = 2000%Q /\
  sale_started (check_and_sell Samples.sniper_cfg fresh (Samples.sniper_reads 2000)).2 = false /\
  (check_and_sell Samples.sniper_cfg t1 (Samples.sniper_reads 2500)).2
    = StillGrowing (5 # 4)%Q /\
  sale_started (check_and_sell Samples.sniper_cfg t1 (Samples.sniper_reads 3000)).2 = true /\
  swap_called (check_and_sell Samples.sniper_cfg t1 (Samples.sniper_reads 3000)).2 = true /\
  initial_liquidity t2 = low /\
  (high / low < liquidity_growth_threshold Samples.sniper_cfg)%Q /\
  sale_started (check_and_sell Samples.sniper_cfg t2 (Samples.sniper_reads high)).2 = true.
Proof.
  intros t1 low high t2.
  assert (Hfind : forall liq, Qle_bool 1000 liq = true ->
            finds_tradeable Samples.sniper_cfg (Samples.sniper_reads liq)).
  { intros liq Hliq. split; [reflexivity|].
    rewrite is_tradeable_well_formed; [exact Hliq | reflexivity | reflexivity]. }
  pose proof (C7_growth_gate Samples.sniper_cfg fresh (Samples.sniper_reads 2000)
                (Hfind 2000%Q eq_refl)) as (Hfirst & _ & _).
  destruct (Hfirst eq_refl) as (_ & Hinit & Hstart).
  pose proof (C7_growth_gate Samples.sniper_cfg t1 (Samples.sniper_reads 2500)
                (Hfind 2500%Q eq_refl)) as (_ & Hlater & _).
  destruct (Hlater eq_refl eq_refl) as (_ & _ & Hgrow).
  pose proof (C7_growth_gate Samples.sniper_cfg t1 (Samples.sniper_reads 3000)
                (Hfind 3000%Q eq_refl)) as (_ & Hlater' & Hswap).
  destruct (Hlater' eq_refl eq_refl) as (_ & Hsale & _).
  assert (Hsold : sale_started
            (check_and_sell Samples.sniper_cfg t1 (Samples.sniper_reads 3000)).2 = true).
  { apply Hsale. apply Qle_bool_iff. vm_compute. reflexivity. }
  pose proof (C7_growth_gate Samples.sniper_cfg fresh (Samples.sniper_reads low)
                (Hfind low ltac:(vm_compute; reflexivity))) as (Hfirst2 & _ & _).
  destruct (Hfirst2 eq_refl) as (_ & Hinit2 & _).
  pose proof (C7_growth_gate Samples.sniper_cfg t2 (Samples.sniper_reads high)
                (Hfind high ltac:(vm_compute; reflexivity))) as (_ & Hlater2 & _).
  destruct (Hlater2 ltac:(vm_compute; reflexivity) ltac:(vm_compute; reflexivity))
    as (_ & Hsale2 & _).
  split_and!.
  - exact Hinit.
  - destruct (sale_started _) eqn:Hs; [|reflexivity].
    exfalso. apply (proj1 Hstart eq_refl). reflexivity.
  - rewrite Hgrow; [vm_compute; reflexivity|]. vm_compute. reflexivity.
  - exact Hsold.
  - apply Hswap. split_and!; [exact Hsold | reflexivity | reflexivity].
  - exact Hinit2.
  - vm_compute. reflexivity.
  - apply Hsale2. apply Qle_bool_iff. vm_compute. reflexivity.
Defined.

(** The ratio is reached and still no swap is executed: threshold 1.5,
    initial liquidity 2000, current liquidity 3000, and the read of the
    total supply fails. *)
Lemma C7_grown_but_no_supply :
  let t1 := (check_and_sell Samples.sniper_cfg fresh (Samples.sniper_reads 2000)).1 in
  let r := Samples.sniper_reads_no_supply 3000 in
  has_liquidity_detected t1 = true /\
  initial_liquidity t1 = 2000%Q /\
  (check_and_sell Samples.sniper_cfg t1 r).2 = NoSupply (3 # 2)%Q /\
  ~ spec_swap_iff_grown Samples.sniper_cfg t1 r.
Proof.
  intros t1 r. split_and!; try (vm_compute; reflexivity).
  intros [_ Hcalled].
  assert (Hswap : swap_called (check_and_sell Samples.sniper_cfg t1 r).2 = true).
  { apply Hcalled. apply Qle_bool_iff. vm_compute. reflexivity. }
  vm_compute in Hswap. discriminate Hswap.
Qed.

End SniperFacts.

(** ** The swap executor *)

Module SwapFacts.
Import Swap.

Section Facts.
Context `{Library}.
Variable self_address : string.
Variable w : World.

Ltac run_monad := unfold mbind, M_bind, bind, catch, lift, emit, ret, raise.

(** The two requests to 0x: nothing asked and null, or one request and
    the provider's answer. *)
Lemma get_0x_quote_cases token_in token_out amount :
  get_0x_quote self_address w token_in token_out amount = (Some None, []) \/
  get_0x_quote self_address w token_in token_out amount
    = (Some (response_of (quote_http w ZeroEx)), [EvQuote ZeroEx]).
Proof.
  unfold get_0x_quote, body_of, response_of. run_monad.
  destruct (to_checksum_address token_in); [|by left].
  destruct (to_checksum_address token_out); [|by left].
  destruct (to_checksum_address self_address); [|by left].
  right. destruct (quote_http w ZeroEx) as [|code [d|]]; try done;
    destruct (code =? 200); done.
Qed.

Lemma get_0x_swap_tx_cases token_in token_out amount :
  get_0x_swap_tx self_address w token_in token_out amount = (Some None, []) \/
  get_0x_swap_tx self_address w token_in token_out amount
    = (Some (response_of (swap_http w ZeroEx)), [EvSwapData ZeroEx]).
Proof.
  unfold get_0x_swap_tx, body_of, response_of. run_monad.
  destruct (to_checksum_address token_in); [|by left].
  destruct (to_checksum_address token_out); [|by left].
  destruct (to_checksum_address self_address); [|by left].
  right. destruct (swap_http w ZeroEx) as [|code [d|]]; try done;
    destruct (code =? 200); done.
Qed.

(** The allowance check never raises and makes at most the one read. *)
Lemma check_allowance_cases token spender :
  check_allowance w token spender = (Some 0, []) \/
  exists token' spender',
    to_checksum_address token = Some token' /\
    checksum_val spender = Some spender' /\
    check_allowance w token spender
      = (Some (default 0 (allowance_call w)), [EvAllowanceRead token' spender']).
Proof.
  unfold check_allowance. run_monad.
  destruct (to_checksum_address token) as [token'|]; [|by left].
  destruct (checksum_val spender) as [spender'|]; [|by left].
  right. exists token', spender'. by destruct (allowance_call w).
Qed.

(** The approval never raises; it starts with its own entry, is made of
    approval events only, and sends the approve transaction of the given
    amount once that transaction is built and signed. *)
Lemma approve_token_spec token spender amount :
  exists r rest,
    approve_token w token spender amount
      = (Some r, EvApproveCalled token spender amount :: rest) /\
    Forall (fun e => is_approval e = true) rest /\
    (forall token' spender',
        to_checksum_address token = Some token' ->
        checksum_val spender = Some spender' ->
        uint256 amount = true ->
        is_Some (approve_nonce w) -> is_Some (approve_gas_price w) ->
        is_Some (approve_signed w) ->
        In (EvApproveSent token' spender' amount) rest) /\
    (approve_sent w = None -> r = None).
Proof.
  unfold approve_token. run_monad.
  destruct (to_checksum_address token) as [token'|];
    [|eexists _, _; split_and!; [done | constructor | done | done]].
  destruct (checksum_val spender) as [spender'|];
    [|eexists _, _; split_and!; [done | constructor | done | done]].
  destruct (uint256 amount);
    [|eexists _, _; split_and!; [done | constructor | by intros ? ? _ _ [=] | done]].
  destruct (approve_nonce w);
    [|eexists _, _; split_and!; [done | constructor | by intros ? ? _ _ _ [? [=]] | done]].
  destruct (approve_gas_price w);
    [|eexists _, _; split_and!; [done | constructor | by intros ? ? _ _ _ _ [? [=]] | done]].
  destruct (approve_signed w);
    [|eexists _, _; split_and!;
      [done | constructor | by intros ? ? _ _ _ _ _ [? [=]] | done]].
  destruct (approve_sent w), (approve_receipt w); simpl;
    eexists _, _; (split_and!; [done | repeat constructor | | done]);
    intros ? ? [= <-] [= <-] _ _ _ _; simpl; tauto.
Qed.

Lemma check_allowance_quiet token spender :
  Forall (fun e => is_approval e = false /\ is_swap_submission e = false)
    (check_allowance w token spender).2.
Proof.
  destruct (check_allowance_cases token spender) as [-> | (? & ? & _ & _ & ->)];
    simpl; repeat constructor.
Qed.

(** Building, signing and sending the swap involves no approval. *)
Lemma send_swap_no_approval swap_data :
  Forall (fun e => is_approval e = false) (send_swap w swap_data).2.
Proof.
  unfold send_swap. run_monad.
  repeat (case_match; simplify_eq; simpl; try by repeat constructor).
Qed.

(** Step 3 never raises. *)
Lemma ensure_allowance_trace token_in swap_data amount_in :
  let target := get "allowanceTarget" swap_data in
  let allowance := default 0 (check_allowance w token_in target).1 in
  ensure_allowance w token_in swap_data amount_in =
    (Some tt,
     ((check_allowance w token_in target).2 ++
      if allowance <? amount_in
      then (approve_token w token_in target (amount_in * 2)).2 else [])%list).
Proof.
  intros target allowance. subst allowance. unfold ensure_allowance. fold target.
  destruct (approve_token_spec token_in target (amount_in * 2)) as (r & rest & Ha & _).
  destruct (check_allowance_cases token_in target) as [Hc | (? & ? & _ & _ & Hc)];
    rewrite Hc; simpl; unfold mbind, M_bind, bind, ret;
    (destruct (_ <? amount_in); [rewrite Ha; simpl; by rewrite ?app_nil_r | done]).
Qed.

(** Once the quote and the swap data are there, the execution is the
    allowance step followed by the sending of the swap. *)
Lemma execute_swap_trace token_in token_out amount_in q tq sd ts :
  get_0x_quote self_address w token_in token_out amount_in = (Some (Some q), tq) ->
  truthy (Some q) = true ->
  get_0x_swap_tx self_address w token_in token_out amount_in = (Some (Some sd), ts) ->
  truthy (Some sd) = true ->
  execute_swap self_address w token_in token_out amount_in =
    (match (send_swap w sd).1 with Some h => h | None => None end,
     (tq ++ ts ++ (ensure_allowance w token_in sd amount_in).2 ++ (send_swap w sd).2)%list).
Proof.
  intros Hq Hqt Hs Hst. unfold execute_swap.
  unfold mbind at 1, M_bind at 1, bind at 1. rewrite Hq, Hqt. simpl.
  unfold mbind at 1, M_bind at 1, bind at 1. rewrite Hs.
  destruct sd as [|f fs]; [done|].
  pose proof (ensure_allowance_trace token_in (f :: fs) amount_in) as He. simpl in He.
  unfold mbind at 1, M_bind at 1, bind at 1. rewrite He.
  destruct (send_swap w (f :: fs)) as [[r|] tx]; unfold catch; simpl;
    by rewrite <- ?app_assoc.
Qed.

Lemma send_swap_only_submits swap_data :
  Forall (fun e => is_swap_submission e = true) (send_swap w swap_data).2.
Proof.
  unfold send_swap. run_monad.
  repeat (case_match; simplify_eq; simpl; try by repeat constructor).
Qed.

Lemma providers_asked_app t1 t2 :
  providers_asked (t1 ++ t2) = (providers_asked t1 ++ providers_asked t2)%list.
Proof.
  induction t1 as [|e t1 IH]; simpl; [done|]. destruct e; simpl; by rewrite ?IH.
Qed.

Lemma providers_asked_none (P : Event -> bool) t :
  (forall p, P (EvQuote p) = false) -> (forall p, P (EvSwapData p) = false) ->
  Forall (fun e => P e = true) t -> providers_asked t = [].
Proof.
  intros Hq Hs. induction 1 as [|e t He _ IH]; simpl; [done|].
  destruct e; try done; [by rewrite Hq in He | by rewrite Hs in He].
Qed.

Lemma ensure_allowance_asks_nobody token_in swap_data amount_in :
  providers_asked (ensure_allowance w token_in swap_data amount_in).2 = [].
Proof.
  rewrite ensure_allowance_trace. simpl. rewrite providers_asked_app.
  destruct (check_allowance_cases token_in (get "allowanceTarget" swap_data))
    as [-> | (? & ? & _ & _ & ->)]; simpl;
    (case_match; [|done]);
    destruct (approve_token_spec token_in (get "allowanceTarget" swap_data) (amount_in * 2))
      as (r & rest & -> & Hrest & _); simpl;
    by apply (providers_asked_none is_approval).
Qed.

Lemma providers_asked_0x t p :
  Forall (fun e => e = EvQuote ZeroEx \/ e = EvSwapData ZeroEx) t ->
  In p (providers_asked t) -> p = ZeroEx.
Proof.
  induction 1 as [|e t [-> | ->] _ IH]; simpl; [done | |]; intros [<- | Hp]; auto.
Qed.

(** Where an execution can end: failed with at most the two requests to
    0x made, or through the allowance step into the sending. *)
Lemma execute_swap_cases token_in token_out amount_in :
  let result := execute_swap self_address w token_in token_out amount_in in
  (result.1 = None /\
   (result.2 = [] \/
    result.2 = [EvQuote ZeroEx] \/
    (truthy (response_of (quote_http w ZeroEx)) = true /\
     truthy (response_of (swap_http w ZeroEx)) = false /\
     result.2 = [EvQuote ZeroEx; EvSwapData ZeroEx]))) \/
  (exists q sd,
     response_of (quote_http w ZeroEx) = Some q /\ truthy (Some q) = true /\
     response_of (swap_http w ZeroEx) = Some sd /\ truthy (Some sd) = true /\
     result =
       (match (send_swap w sd).1 with Some h => h | None => None end,
        ([EvQuote ZeroEx; EvSwapData ZeroEx] ++
         (ensure_allowance w token_in sd amount_in).2 ++ (send_swap w sd).2)%list)).
Proof.
  intros result. subst result.
  destruct (get_0x_quote_cases token_in token_out amount_in) as [Hq | Hq].
  { assert (Hrun : execute_swap self_address w token_in token_out amount_in = (None, [])).
    { unfold execute_swap. unfold mbind at 1, M_bind at 1, bind at 1. by rewrite Hq. }
    left. rewrite Hrun. simpl. tauto. }
  destruct (truthy (response_of (quote_http w ZeroEx))) eqn:Hqt.
  2:{ assert (Hrun : execute_swap self_address w token_in token_out amount_in
                     = (None, [EvQuote ZeroEx])).
      { unfold execute_swap. unfold mbind at 1, M_bind at 1, bind at 1.
        rewrite Hq. simpl. by rewrite Hqt. }
      left. rewrite Hrun. simpl. tauto. }
  destruct (response_of (quote_http w ZeroEx)) as [q|] eqn:Hqr; [|done].
  destruct (get_0x_swap_tx_cases token_in token_out amount_in) as [Hs | Hs].
  { assert (Hrun : execute_swap self_address w token_in token_out amount_in
                   = (None, [EvQuote ZeroEx])).
    { unfold execute_swap. unfold mbind at 1, M_bind at 1, bind at 1.
      rewrite Hq, Hqt. simpl.
      unfold mbind at 1, M_bind at 1, bind at 1. by rewrite Hs. }
    left. rewrite Hrun. simpl. tauto. }
  destruct (truthy (response_of (swap_http w ZeroEx))) eqn:Hst.
  2:{ assert (Hrun : execute_swap self_address w token_in token_out amount_in
                     = (None, [EvQuote ZeroEx; EvSwapData ZeroEx])).
      { unfold execute_swap. unfold mbind at 1, M_bind at 1, bind at 1.
        rewrite Hq, Hqt. simpl.
        unfold mbind at 1, M_bind at 1, bind at 1. rewrite Hs.
        by destruct (response_of (swap_http w ZeroEx)) as [[|f fs]|]. }
      left. rewrite Hrun. simpl. tauto. }
  destruct (response_of (swap_http w ZeroEx)) as [sd|] eqn:Hsr; [|done].
  right. exists q, sd. split_and!; try done.
  by rewrite (execute_swap_trace token_in token_out amount_in q _ sd _ Hq Hqt Hs Hst).
Qed.

(** C3, as the code has it. The executor asks one provider only, 0x,
    whatever the configured priority order says: every request of an
    execution goes to 0x, and when the quote or the swap data of 0x is
    null (or empty) the attempt ends as failed at once, with no other
    provider asked and nothing approved, signed or sent. *)
Theorem C3_only_0x_is_asked (token_in token_out : string) (amount_in : Z) :
  let result := execute_swap self_address w token_in token_out amount_in in
  (forall p, In p (providers_asked result.2) -> p = ZeroEx) /\
  (truthy (response_of (quote_http w ZeroEx)) = false \/
   truthy (response_of (swap_http w ZeroEx)) = false ->
     result.1 = None /\
     Forall (fun e => e = EvQuote ZeroEx \/ e = EvSwapData ZeroEx) result.2).
Proof.
  intros result.
  destruct (execute_swap_cases token_in token_out amount_in)
    as [[Hr Ht] | (q & sd & Hq & Hqt & Hs & Hst & Hrun)]; fold result in Hr, Ht || fold result in Hrun.
  - assert (Hshape : Forall (fun e => e = EvQuote ZeroEx \/ e = EvSwapData ZeroEx) result.2).
    { destruct Ht as [-> | [-> | (_ & _ & ->)]];
        repeat (apply List.Forall_cons; [tauto|]); apply List.Forall_nil. }
    split; [|done]. intros p. by apply providers_asked_0x.
  - split.
    + rewrite Hrun. simpl. rewrite providers_asked_app, ensure_allowance_asks_nobody.
      rewrite (providers_asked_none is_swap_submission); [| done | done |
        apply send_swap_only_submits].
      simpl. intros p [<- | [<- | []]]; done.
    + rewrite Hq, Hs, Hqt, Hst. by intros [? | ?].
Qed.

(** What the approval returns has no part in what follows: with the quote
    and the swap data in hand the execution ends as the sending of the
    swap ends, whether the approval went through or not. *)
Lemma approval_result_is_dropped token_in token_out amount_in q tq sd ts :
  get_0x_quote self_address w token_in token_out amount_in = (Some (Some q), tq) ->
  truthy (Some q) = true ->
  get_0x_swap_tx self_address w token_in token_out amount_in = (Some (Some sd), ts) ->
  truthy (Some sd) = true ->
  (execute_swap self_address w token_in token_out amount_in).1
    = match (send_swap w sd).1 with Some h => h | None => None end /\
  exists before_swap,
    (execute_swap self_address w token_in token_out amount_in).2
      = (before_swap ++ (send_swap w sd).2)%list.
Proof.
  intros Hq Hqt Hs Hst.
  rewrite (execute_swap_trace _ _ _ q tq sd ts Hq Hqt Hs Hst). simpl.
  split; [done|]. eexists. by rewrite !app_assoc.
Qed.

Lemma approval_is_no_submission e : is_approval e = true -> is_swap_submission e = false.
Proof. by destruct e. Qed.

(** The allowance step. With the quote and the swap data in hand the
    calls of an execution are those of the two requests, of the allowance
    check, of the approval if there is one, and of the sending of the
    swap, in this order. The allowance is read from the chain when the
    token and the payload's allowanceTarget are addresses, and counts as
    zero when the read fails. With allowance < amount the approval is
    called for twice the amount and nothing of the swap is signed or sent
    before the approval is over; the approve transaction is handed to the
    chain when the two addresses are valid, the doubled amount is a
    uint256, and the nonce, the gas price and the signature are there.
    With allowance >= amount the trace holds no approval event and the
    swap follows the read at once. *)
Theorem allowance_step_before_signing (token_in token_out : string) (amount_in : Z)
    (q : Dict) (tq : list Event) (sd : Dict) (ts : list Event) :
  get_0x_quote self_address w token_in token_out amount_in = (Some (Some q), tq) ->
  truthy (Some q) = true ->
  get_0x_swap_tx self_address w token_in token_out amount_in = (Some (Some sd), ts) ->
  truthy (Some sd) = true ->
  let target := get "allowanceTarget" sd in
  let allowance := default 0 (check_allowance w token_in target).1 in
  let read := (check_allowance w token_in target).2 in
  let approval := (approve_token w token_in target (amount_in * 2)).2 in
  let sending := (send_swap w sd).2 in
  let trace := (execute_swap self_address w token_in token_out amount_in).2 in
  (forall token spender,
      to_checksum_address token_in = Some token ->
      checksum_val target = Some spender ->
      read = [EvAllowanceRead token spender] /\
      allowance = default 0 (allowance_call w)) /\
  (allowance < amount_in ->
     trace = (tq ++ ts ++ read ++ approval ++ sending)%list /\
     Forall (fun e => is_swap_submission e = false) (tq ++ ts ++ read ++ approval) /\
     exists rest,
       approval = EvApproveCalled token_in target (amount_in * 2) :: rest /\
       Forall (fun e => is_approval e = true) rest /\
       forall token spender,
         to_checksum_address token_in = Some token ->
         checksum_val target = Some spender ->
         uint256 (amount_in * 2) = true ->
         is_Some (approve_nonce w) -> is_Some (approve_gas_price w) ->
         is_Some (approve_signed w) ->
         In (EvApproveSent token spender (amount_in * 2)) rest) /\
  (amount_in <= allowance ->
     trace = (tq ++ ts ++ read ++ sending)%list /\
     Forall (fun e => is_approval e = false) trace).
Proof.
  intros Hq Hqt Hs Hst target allowance read approval sending trace.
  assert (Htrace : trace = (tq ++ ts ++
            (read ++ if allowance <? amount_in then approval else []) ++ sending)%list).
  { subst trace. rewrite (execute_swap_trace _ _ _ q tq sd ts Hq Hqt Hs Hst). simpl.
    by rewrite ensure_allowance_trace. }
  assert (Htq : Forall (fun e => is_approval e = false /\ is_swap_submission e = false) tq).
  { destruct (get_0x_quote_cases token_in token_out amount_in) as [Hc | Hc];
      rewrite Hc in Hq; injection Hq as _ <-; repeat constructor. }
  assert (Hts : Forall (fun e => is_approval e = false /\ is_swap_submission e = false) ts).
  { destruct (get_0x_swap_tx_cases token_in token_out amount_in) as [Hc | Hc];
      rewrite Hc in Hs; injection Hs as _ <-; repeat constructor. }
  pose proof (check_allowance_quiet token_in target) as Hread. fold read in Hread.
  split_and!.
  - intros token spender Htoken Hspender. subst read allowance.
    destruct (check_allowance_cases token_in target) as [Hc | (t' & s' & Ht' & Hs' & Hc)].
    + exfalso. revert Hc. unfold check_allowance. run_monad.
      rewrite Htoken, Hspender. by destruct (allowance_call w).
    + rewrite Hc. simpl. split; [congruence | done].
  - intros Hlt. rewrite (proj2 (Z.ltb_lt _ _) Hlt) in Htrace.
    destruct (approve_token_spec token_in target (amount_in * 2))
      as (r & rest & Ha & Hrest & Hsent & _).
    split_and!.
    + rewrite Htrace. by rewrite <- !app_assoc.
    + subst approval. rewrite Ha. simpl.
      rewrite !Forall_app. split_and!.
      * eapply Forall_impl; [exact Htq|]. by intros ? [_ ?].
      * eapply Forall_impl; [exact Hts|]. by intros ? [_ ?].
      * eapply Forall_impl; [exact Hread|]. by intros ? [_ ?].
      * constructor; [done|]. eapply Forall_impl; [exact Hrest|].
        intros ?. apply approval_is_no_submission.
    + exists rest. subst approval. rewrite Ha. done.
  - intros Hge. rewrite (proj2 (Z.ltb_ge _ _) Hge), app_nil_r in Htrace.
    split; [done|]. rewrite Htrace. rewrite !Forall_app. split_and!.
    + eapply Forall_impl; [exact Htq|]. by intros ? [? _].
    + eapply Forall_impl; [exact Hts|]. by intros ? [? _].
    + eapply Forall_impl; [exact Hread|]. by intros ? [? _].
    + apply send_swap_no_approval.
Qed.

End Facts.

(** An execution with no allowance: the approval for twice the amount is
    called and sent before the swap is signed. *)
Lemma allowance_step_example :
  (@execute_swap Samples.plain_library "0xwallet"
     (Samples.world_with Samples.only_0x 0 (Some "0xapprovehash"))
     Samples.token_a "0xweth" 1000).2
  = [EvQuote ZeroEx; EvSwapData ZeroEx;
     EvAllowanceRead Samples.token_a "0xholder";
     EvApproveCalled Samples.token_a (Some (VScalar (SStr "0xholder"))) 2000;
     EvApproveSent Samples.token_a "0xholder" 2000; EvApproveWaited;
     EvSwapSigned "0xrouter"; EvSwapSent; EvSwapWaited].
Proof.
  pose proof (allowance_step_before_signing (H:=Samples.plain_library) "0xwallet"
                (Samples.world_with Samples.only_0x 0 (Some "0xapprovehash"))
                Samples.token_a "0xweth" 1000
                Samples.swap_payload [EvQuote ZeroEx] Samples.swap_payload [EvSwapData ZeroEx]
                eq_refl eq_refl eq_refl eq_refl) as (_ & Hlow & _).
  destruct Hlow as (Htrace & _); [reflexivity|].
  rewrite Htrace. reflexivity.
Defined.

(** C4 on the code: the allowance read gives 0 for an amount of 1000,
    the nonce of the approve transaction cannot be read, so the approval
    ends before anything is handed to the chain; the swap is signed,
    sent and waited for all the same, and the execution ends with the
    hash of the swap: a swap signed with a short allowance and no approve
    transaction submitted. *)
Lemma C4_swap_signed_without_approval :
  let w := SwapMore.no_nonce_world in
  let target := get "allowanceTarget" Samples.swap_payload in
  check_allowance (H:=Samples.plain_library) w Samples.token_a target
  = (Some 0, [EvAllowanceRead Samples.token_a "0xholder"]) /\
  approve_token (H:=Samples.plain_library) w Samples.token_a target 2000
  = (Some None,
     [EvApproveCalled Samples.token_a (Some (VScalar (SStr "0xholder"))) 2000]) /\
  @execute_swap Samples.plain_library "0xwallet" w Samples.token_a "0xweth" 1000
  = (Some "0xswaphash",
     [EvQuote ZeroEx; EvSwapData ZeroEx;
      EvAllowanceRead Samples.token_a "0xholder";
      EvApproveCalled Samples.token_a (Some (VScalar (SStr "0xholder"))) 2000;
      EvSwapSigned "0xrouter"; EvSwapSent; EvSwapWaited]).
Proof. split_and!; vm_compute; reflexivity. Qed.

(** A world with a quote, but where the configured priority order and the
    executor part ways: 1inch and 0x answer null, Uniswap would answer,
    and the executor fails after asking 0x alone. *)
Lemma C3_no_fallback :
  let w := Samples.world_with Samples.only_uniswap 0 (Some "0xapprovehash") in
  let result := @execute_swap Samples.plain_library "0xwallet" w Samples.token_a "0xweth" 1000 in
  answers_null w OneInch /\ answers_null w ZeroEx /\
  spec_first_non_null w AGGREGATOR_PRIORITY = Some (Uniswap, Samples.swap_payload) /\
  result = (None, [EvQuote ZeroEx]) /\
  ~ spec_routing (providers_asked result.2) w.
Proof.
  intros w result. split_and!; try (vm_compute; done).
  intros [Haccept Hnext].
  specialize (Hnext ZeroEx Uniswap [OneInch] [OKX] eq_refl).
  assert (Hin : In Uniswap (providers_asked result.2)).
  { apply Hnext; [by left | by split]. }
  vm_compute in Hin. destruct Hin as [[=] | []].
Qed.

(** The executor on a world where only 0x answers, and on one where 0x
    answers null. *)
Lemma C3_scenario_null_from_0x :
  let w := Samples.world_with Samples.only_uniswap 0 (Some "0xapprovehash") in
  let result := @execute_swap Samples.plain_library "0xwallet" w Samples.token_a "0xweth" 1000 in
  result.1 = None /\
  Forall (fun e => e = EvQuote ZeroEx \/ e = EvSwapData ZeroEx) result.2.
Proof.
  intros w result.
  apply (proj2 (C3_only_0x_is_asked (H:=Samples.plain_library) "0xwallet" w
                  Samples.token_a "0xweth" 1000)).
  left. reflexivity.
Defined.

(** C5 on the code: the approval cannot be sent (the send raises), the
    allowance is zero, and the swap is signed, sent and waited for all
    the same; the attempt even ends with the hash of the swap. *)
Lemma C5_failed_approval_still_swaps :
  let w := Samples.world_with Samples.only_0x 0 None in
  approve_token (H:=Samples.plain_library) w Samples.token_a
    (get "allowanceTarget" Samples.swap_payload) 2000
  = (Some None,
     [EvApproveCalled Samples.token_a (Some (VScalar (SStr "0xholder"))) 2000;
      EvApproveSent Samples.token_a "0xholder" 2000]) /\
  @execute_swap Samples.plain_library "0xwallet" w Samples.token_a "0xweth" 1000
  = (Some "0xswaphash",
     [EvQuote ZeroEx; EvSwapData ZeroEx;
      EvAllowanceRead Samples.token_a "0xholder";
      EvApproveCalled Samples.token_a (Some (VScalar (SStr "0xholder"))) 2000;
      EvApproveSent Samples.token_a "0xholder" 2000;
      EvSwapSigned "0xrouter"; EvSwapSent; EvSwapWaited]).
Proof. split; vm_compute; reflexivity. Qed.

End SwapFacts.

(** ** More on the event watcher *)

Module WatcherMoreFacts.
Import PyStr PyStrFacts Watcher WatcherFacts WatcherMore.

Section Facts.
Context `{Library}.
Variable cfg : Config.

(** The polling loop and the subscription loop treat a log alike: the
    same state and the same outcome, although they test in another
    order. *)
Theorem modes_agree (my : string) (st : Monitor) (log : Log) :
  watch_log cfg Polling my st log = watch_log cfg Subscription my st log.
Proof.
  unfold watch_log, poll_log, ws_log.
  destruct (3 <=? length (topics log))%nat; [|by case_decide].
  destruct (topics log !! 2%nat) as [topic|]; [|by case_decide].
  destruct (decide ("0x" +:+ lower (last_chars 40 topic) = lower my)) as [Heq | Hne].
  - rewrite (decide_True (P := lower _ = lower my)) by (by apply recipient_test_agrees).
    by case_decide.
  - rewrite (decide_False (P := lower _ = lower my))
      by (by intros ?%recipient_test_agrees).
    by case_decide.
Qed.

(** A log that is not a transfer to the wallet (fewer than three topics,
    or another recipient) is skipped and leaves the state as it is. *)
Theorem foreign_log_ignored (m : Mode) (my : string) (st : Monitor) (log : Log) :
  ~ addressed_to my log ->
  watch_log cfg m my st log = (st, Skipped).
Proof.
  intros Hnot. destruct (watch_log cfg m my st log) as [st' o] eqn:Heq.
  apply watch_log_inv in Heq as [[-> ->] | (_ & Hto & _)]; [done | contradiction].
Qed.

Lemma record_token_consistent st token tx b :
  consistent st -> consistent (record_token st token tx b).
Proof.
  intros (Hdom & Hproc & Hknown). unfold consistent, record_token; simpl.
  rewrite dom_insert_L. split_and!.
  - case_decide; set_solver.
  - intros k [->%elem_of_singleton | Hk]%elem_of_union; simpl.
    + case_decide; set_solver.
    + specialize (Hproc k Hk). case_decide; set_solver.
  - intros t Ht. destruct (decide (t = token)) as [-> | Hne].
    + exists tx. set_solver.
    + assert (Hin : t ∈ known_tokens st) by (case_decide; set_solver).
      destruct (Hknown t Hin) as [tx' Htx]. exists tx'. set_solver.
Qed.

Lemma watch_log_consistent m my st log :
  consistent st -> consistent (watch_log cfg m my st log).1.
Proof.
  intros Hc. destruct (watch_log cfg m my st log) as [st' o] eqn:Heq.
  apply watch_log_inv in Heq as [[-> ->] | (_ & _ & _ & -> & _)]; simpl;
    [done | by apply record_token_consistent].
Qed.

Lemma scan_logs_consistent my logs : forall st,
  consistent st -> consistent (scan_logs cfg (lower my) st logs).1.1.
Proof.
  induction logs as [|log rest IH]; intros st Hc; simpl; [done|].
  pose proof (watch_log_consistent Polling my st log Hc) as Hstep. simpl in Hstep.
  destruct (poll_log cfg (lower my) st log) as [st1 [|token|]]; simpl in *.
  - by apply IH.
  - specialize (IH st1 Hstep).
    by destruct (scan_logs cfg (lower my) st1 rest) as [[st2 toks] fin].
  - done.
Qed.

Lemma set_last_block_scanned_consistent st b :
  consistent st -> consistent (set_last_block_scanned st b).
Proof. done. Qed.

Lemma step_consistent callback st i :
  consistent st -> consistent (step cfg callback st i).1.
Proof.
  intros Hc. destruct i as [chain|log]; simpl.
  - unfold poll_iteration, scan_recent_blocks, scan_range.
    destruct (block_number chain); [|done].
    destruct (get_logs chain _ _) as [logs|]; [|done].
    destruct (to_checksum_address (wallet cfg)) as [my|]; [|done].
    pose proof (scan_logs_consistent my logs st Hc) as Hscan.
    destruct (scan_logs cfg (lower my) st logs) as [[st1 toks] [|]]; done.
  - unfold ws_message. destruct (to_checksum_address (wallet cfg)) as [my|]; [|done].
    pose proof (watch_log_consistent Subscription my st log Hc) as Hstep. simpl in Hstep.
    by destruct (ws_log cfg my st log) as [st1 [|token|]].
Qed.

(** In every state a watcher can reach from its start, through any
    polling cycles and subscription messages, the known tokens are
    exactly the tokens with a recorded last block, every processed
    (token, hash) pair belongs to a known token, and every known token
    has a processed pair. *)
Theorem reachable_states_consistent (callback : Handler) (inputs : list Input) :
  consistent (run cfg callback init inputs).1.
Proof.
  assert (Hgen : forall st, consistent st -> consistent (run cfg callback st inputs).1).
  { induction inputs as [|i rest IH]; intros st Hc; simpl; [done|].
    pose proof (step_consistent callback st i Hc) as Hstep.
    destruct (step cfg callback st i) as [st1 calls]. simpl in Hstep.
    specialize (IH st1 Hstep).
    by destruct (run cfg callback st1 rest) as [st2 calls']. }
  apply Hgen. unfold consistent, init; simpl. rewrite dom_empty_L. set_solver.
Qed.

#[local] Instance last_blocks_le_refl : Reflexive last_blocks_le.
Proof. intros st token b Hb. exists b. split; [done | lia]. Qed.

#[local] Instance last_blocks_le_trans : Transitive last_blocks_le.
Proof.
  intros a b c Hab Hbc token x Hx.
  destruct (Hab token x Hx) as (y & Hy & Hxy).
  destruct (Hbc token y Hy) as (z & Hz & Hyz). exists z. split; [done | lia].
Qed.

Lemma watch_log_last_blocks_le m my st log :
  0 <= DUPLICATE_CHECK_BLOCKS cfg ->
  last_blocks_le st (watch_log cfg m my st log).1.
Proof.
  intros Hdup. destruct (watch_log cfg m my st log) as [st' o] eqn:Heq.
  apply watch_log_inv in Heq as [[-> ->] | (_ & _ & Hcool & -> & _)]; simpl; [done|].
  intros token b Hb. unfold record_token; simpl.
  destruct (decide (token = lower (address log))) as [-> | Hne].
  - rewrite lookup_insert_eq. eexists. split; [done|].
    unfold in_cooldown in Hcool. rewrite Hb in Hcool.
    apply Z.ltb_ge in Hcool. lia.
  - rewrite lookup_insert_ne by done. exists b. split; [done | lia].
Qed.

Lemma scan_logs_last_blocks_le my logs : forall st,
  0 <= DUPLICATE_CHECK_BLOCKS cfg ->
  last_blocks_le st (scan_logs cfg (lower my) st logs).1.1.
Proof.
  induction logs as [|log rest IH]; intros st Hdup; simpl; [done|].
  pose proof (watch_log_last_blocks_le Polling my st log Hdup) as Hstep. simpl in Hstep.
  destruct (poll_log cfg (lower my) st log) as [st1 [|token|]]; simpl in *.
  - etrans; [exact Hstep | by apply IH].
  - specialize (IH st1 Hdup).
    destruct (scan_logs cfg (lower my) st1 rest) as [[st2 toks] fin]. simpl in *.
    by etrans.
  - done.
Qed.

Lemma step_last_blocks_le callback st i :
  0 <= DUPLICATE_CHECK_BLOCKS cfg ->
  last_blocks_le st (step cfg callback st i).1.
Proof.
  intros Hdup. destruct i as [chain|log]; simpl.
  - unfold poll_iteration, scan_recent_blocks, scan_range.
    destruct (block_number chain); [|done].
    destruct (get_logs chain _ _) as [logs|]; [|done].
    destruct (to_checksum_address (wallet cfg)) as [my|]; [|done].
    pose proof (scan_logs_last_blocks_le my logs st Hdup) as Hscan.
    destruct (scan_logs cfg (lower my) st logs) as [[st1 toks] [|]]; done.
  - unfold ws_message. destruct (to_checksum_address (wallet cfg)) as [my|]; [|done].
    pose proof (watch_log_last_blocks_le Subscription my st log Hdup) as Hstep.
    simpl in Hstep. by destruct (ws_log cfg my st log) as [st1 [|token|]].
Qed.

(** With a cooldown that is not negative, the block recorded for a token
    never goes back, whatever order the logs arrive in and whichever mode
    handles them: a token recorded at block b is recorded at b or later
    after any further run. *)
Theorem last_block_never_goes_back (callback : Handler) (inputs : list Input)
    (st : Monitor) (token : string) (b : Z) :
  0 <= DUPLICATE_CHECK_BLOCKS cfg ->
  token_last_block st !! token = Some b ->
  exists b', token_last_block (run cfg callback st inputs).1 !! token = Some b' /\ b <= b'.
Proof.
  intros Hdup. revert st.
  assert (Hgen : forall st, last_blocks_le st (run cfg callback st inputs).1).
  { induction inputs as [|i rest IH]; intros st; simpl; [done|].
    pose proof (step_last_blocks_le callback st i Hdup) as Hstep.
    destruct (step cfg callback st i) as [st1 calls]. simpl in Hstep.
    specialize (IH st1).
    destruct (run cfg callback st1 rest) as [st2 calls']. simpl in *. by etrans. }
  intros st. apply Hgen.
Qed.

(** A polling cycle whose height read or log query raises changes
    nothing and calls no handler: the scan marker, the known tokens and
    the processed pairs are those of before. *)
Theorem failed_cycle_changes_nothing (callback : Handler) (st : Monitor) (chain : Chain) :
  block_number chain = None \/
  (exists current, block_number chain = Some current /\
     get_logs chain (Z.max (current - monitor_interval cfg) (last_block_scanned st + 1))
       current = None) ->
  poll_iteration cfg callback st chain = (st, []).
Proof.
  unfold poll_iteration, scan_recent_blocks, scan_range.
  intros [-> | (current & -> & ->)]; done.
Qed.

End Facts.

Lemma foreign_log_ignored_example :
  @watch_log Samples.plain_library Samples.cfg3 Polling Samples.my_wallet
    Samples.seen_at_100 transfer_to_other = (Samples.seen_at_100, Skipped).
Proof.
  apply (foreign_log_ignored (H:=Samples.plain_library)).
  intros (topic & Htopic & Heq). vm_compute in Htopic. injection Htopic as <-.
  vm_compute in Heq. discriminate Heq.
Defined.

Lemma last_block_never_goes_back_example :
  exists b',
    token_last_block
      (@run Samples.plain_library Samples.cfg3 (fun _ _ => true) Samples.seen_at_100
         [Message (Samples.transfer_a "0x02" 101); Message (Samples.transfer_a "0x03" 104)]).1
      !! Samples.token_a_lower = Some b' /\ 100 <= b'.
Proof.
  apply (last_block_never_goes_back (H:=Samples.plain_library) Samples.cfg3).
  - simpl. lia.
  - vm_compute. reflexivity.
Defined.

Lemma failed_cycle_changes_nothing_example :
  @poll_iteration Samples.plain_library Samples.cfg3 (fun _ _ => true)
    Samples.seen_at_100 dead_chain = (Samples.seen_at_100, []).
Proof.
  apply (failed_cycle_changes_nothing (H:=Samples.plain_library)). left. reflexivity.
Defined.

End WatcherMoreFacts.

(** ** The retry discipline of the watch loops *)

Module LoopsFacts.
Import Loops.

Lemma poll_turn_bounds interval retry_count raised :
  0 <= retry_count < max_retries ->
  0 <= (poll_turn interval retry_count raised).1 < max_retries.
Proof.
  unfold poll_turn, max_retries. intros Hrc. destruct raised; simpl; [|lia].
  destruct (5 <=? retry_count + 1) eqn:Hcmp; simpl; [lia|].
  apply Z.leb_gt in Hcmp. lia.
Qed.

Lemma poll_turns_raising interval (n : nat) : forall retry_count,
  0 <= retry_count < max_retries ->
  poll_turns interval retry_count (replicate n true) =
    ((retry_count + Z.of_nat n) mod max_retries,
     map (pause_after retry_count) (seq 1 n)).
Proof.
  unfold max_retries.
  induction n as [|n IH]; intros retry_count Hrc.
  - simpl. rewrite Z.add_0_r, Z.mod_small by lia. done.
  - cbn [replicate poll_turns]. unfold poll_turn at 1. unfold max_retries.
    destruct (5 <=? retry_count + 1) eqn:Hcmp.
    + apply Z.leb_le in Hcmp. assert (retry_count = 4) as -> by lia.
      rewrite (IH 0) by lia. f_equal.
      * replace (4 + Z.of_nat (S n)) with (Z.of_nat n + 1 * 5) by lia.
        rewrite Z.mod_add by lia. done.
      * cbn [seq map]. change (pause_after 4 1) with 10. f_equal.
        rewrite <- (seq_shift n 1), map_map. apply map_ext. intros i.
        unfold pause_after, max_retries.
        replace (4 + Z.of_nat (S i)) with (0 + Z.of_nat i + 1 * 5) by lia.
        by rewrite Z.mod_add by lia.
    + apply Z.leb_gt in Hcmp. rewrite (IH (retry_count + 1)) by lia. f_equal.
      * f_equal. lia.
      * cbn [seq map].
        assert (Hfirst : pause_after retry_count 1 = 5).
        { unfold pause_after, max_retries. rewrite Z.mod_small by lia.
          destruct (retry_count + Z.of_nat 1 =? 0) eqn:Hz; [|done].
          apply Z.eqb_eq in Hz. lia. }
        rewrite Hfirst. f_equal.
        rewrite <- (seq_shift n 1), map_map. apply map_ext. intros i.
        unfold pause_after.
        replace (retry_count + 1 + Z.of_nat i) with (retry_count + Z.of_nat (S i)) by lia.
        done.
Qed.

(** The polling loop's retry counter stays within 0..4 whatever happens;
    over turns that keep raising it counts modulo 5, so that every fifth
    failure in a row is followed by the long pause of 10 seconds and the
    others by 5 seconds; a turn that does not raise resets the counter
    and sleeps the polling interval. *)
Theorem polling_retry_discipline (interval : Z) :
  (forall retry_count turns,
      0 <= retry_count < max_retries ->
      0 <= (poll_turns interval retry_count turns).1 < max_retries) /\
  (forall n,
      poll_turns interval 0 (replicate n true) =
        (Z.of_nat n mod max_retries,
         map (fun i => if Z.of_nat i mod 5 =? 0 then 10 else 5) (seq 1 n))) /\
  (forall retry_count, poll_turn interval retry_count false = (0, interval)).
Proof.
  split_and!.
  - intros retry_count turns. revert retry_count.
    induction turns as [|raised rest IH]; intros retry_count Hrc; simpl; [done|].
    pose proof (poll_turn_bounds interval retry_count raised Hrc) as Hstep.
    destruct (poll_turn interval retry_count raised) as [rc' pause]. simpl in Hstep.
    specialize (IH rc' Hstep).
    by destruct (poll_turns interval rc' rest) as [final pauses].
  - intros n. rewrite poll_turns_raising by (unfold max_retries; lia).
    f_equal.
  - done.
Qed.

Lemma ws_turns_fallback_absorbs attempts : ws_turns PollingForGood attempts = PollingForGood.
Proof. by destruct attempts. Qed.

Lemma ws_turns_failed_connections (n : nat) : forall retry_count rest,
  0 <= retry_count < max_retries ->
  max_retries <= retry_count + Z.of_nat n ->
  ws_turns (Subscribing retry_count) (replicate n ConnectFailed ++ rest) = PollingForGood.
Proof.
  unfold max_retries. induction n as [|n IH]; intros retry_count rest Hrc Hn; [lia|].
  cbn [replicate app ws_turns]. unfold ws_turn, max_retries.
  destruct (5 <=? retry_count + 1) eqn:Hcmp; simpl.
  - apply ws_turns_fallback_absorbs.
  - apply Z.leb_gt in Hcmp. apply IH; lia.
Qed.

Lemma ws_turns_needs_failures attempts : forall retry_count (current : nat),
  0 <= retry_count <= Z.of_nat current + 1 ->
  (longest_failed_run current attempts < 4)%nat ->
  exists retry_count',
    ws_turns (Subscribing retry_count) attempts = Subscribing retry_count' /\
    0 <= retry_count' < max_retries.
Proof.
  unfold max_retries.
  induction attempts as [|a rest IH]; intros retry_count current Hrc Hrun.
  - simpl in *. exists retry_count. split; [done | lia].
  - destruct a; cbn [ws_turns ws_turn longest_failed_run] in *; unfold max_retries.
    + assert (Hcur : (S current < 4)%nat).
      { clear -Hrun. revert Hrun. generalize (S current) as c.
        induction rest as [|a rest IHr]; intros c; simpl; [done|].
        destruct a; [intros ?%IHr | |]; lia. }
      rewrite (proj2 (Z.leb_gt _ _)) by lia. simpl.
      apply (IH _ (S current)); [lia | done].
    + simpl. apply (IH _ 0%nat); [lia | lia].
    + simpl. apply (IH _ 0%nat); [lia | lia].
Qed.

(** The subscription loop gives up for good only on failed connections:
    five failed connections in a row always end in the polling loop,
    from which there is no way back; without four failed connections in
    a row the watcher stays subscribing, with a counter within 0..4. A
    session that ends by the break of the message loop resets the
    counter and reconnects without any pause. *)
Theorem websocket_fallback_discipline :
  (forall retry_count rest,
      0 <= retry_count < max_retries ->
      ws_turns (Subscribing retry_count) (replicate 5 ConnectFailed ++ rest)
        = PollingForGood) /\
  (forall attempts, ws_turns PollingForGood attempts = PollingForGood) /\
  (forall attempts,
      (longest_failed_run 0 attempts < 4)%nat ->
      exists retry_count,
        ws_turns (Subscribing 0) attempts = Subscribing retry_count /\
        0 <= retry_count < max_retries) /\
  (forall retry_count, ws_turn retry_count SessionBroke = (Subscribing 0, None)).
Proof.
  split_and!.
  - intros retry_count rest Hrc. apply ws_turns_failed_connections; [done|].
    unfold max_retries in *. lia.
  - apply ws_turns_fallback_absorbs.
  - intros attempts Hrun. apply (ws_turns_needs_failures attempts 0 0%nat); [lia | done].
  - done.
Qed.

(** Three failures, a session that breaks, three failures: still
    subscribing; five failures in a row: polling for good. *)
Lemma websocket_fallback_example :
  ws_turns (Subscribing 0)
    [ConnectFailed; ConnectFailed; ConnectFailed; SessionBroke;
     ConnectFailed; ConnectFailed; ConnectFailed] = Subscribing 3 /\
  ws_turns (Subscribing 2) (replicate 5 ConnectFailed ++ [SessionBroke]) = PollingForGood.
Proof.
  destruct websocket_fallback_discipline as (Hfive & _ & Hstay & _). split.
  - destruct (Hstay [ConnectFailed; ConnectFailed; ConnectFailed; SessionBroke;
                     ConnectFailed; ConnectFailed; ConnectFailed]) as (rc & Heq & _).
    + simpl. lia.
    + rewrite Heq. vm_compute in Heq. injection Heq as <-. reflexivity.
  - apply Hfive. unfold max_retries. lia.
Defined.

Lemma polling_retry_example :
  0 <= (poll_turns 10 3 [true; false; true; true]).1 < max_retries.
Proof.
  apply (proj1 (polling_retry_discipline 10)). unfold max_retries. lia.
Defined.

End LoopsFacts.

(** ** The security gate *)

Module SecurityFacts.
Import PyStr PyStrFacts Security.

Lemma elem_of_lowered (addresses : list string) (token : string) :
  lower token ∈ lowered addresses <->
  exists a, In a addresses /\ lower a = lower token.
Proof.
  unfold lowered. rewrite elem_of_list_to_set, list_elem_of_In, in_map_iff.
  split; intros (a & ? & ?); exists a; done.
Qed.

(** The lists are case-insensitive: with a blacklist built from a list of
    addresses, a token is blacklisted exactly when some listed address
    equals it up to letter case; with a whitelist built the same way a
    token passes exactly when the list is empty or some listed address
    equals it up to letter case. *)
Theorem lists_ignore_letter_case (black white : list string) (max : Q) (token : string) :
  let cfg := {| blacklist_tokens := lowered black; whitelist_tokens := lowered white;
                max_gas_price_gwei := max |} in
  (is_in_blacklist cfg token = true <-> exists a, In a black /\ lower a = lower token) /\
  (is_in_whitelist cfg token = true <->
     white = [] \/ exists a, In a white /\ lower a = lower token).
Proof.
  intros cfg. unfold is_in_blacklist, is_in_whitelist. simpl. split.
  - rewrite bool_decide_eq_true. apply elem_of_lowered.
  - destruct white as [|a0 white'].
    + rewrite decide_True by done. split; [by left | done].
    + rewrite decide_False.
      2:{ unfold lowered. simpl. set_solver. }
      rewrite bool_decide_eq_true, elem_of_lowered. split; [by right|].
      intros [? | ?]; done.
Qed.

(** [validate_token] approves a token exactly when it is not blacklisted,
    passes the whitelist, is an address the library accepts, both
    contract reads answer and the total supply is not zero. *)
Theorem validate_token_approves `{Library} (cfg : Config) (reads : TokenReads)
    (token : string) :
  (validate_token cfg reads token).1.1 = true <->
  is_in_blacklist cfg token = false /\
  is_in_whitelist cfg token = true /\
  is_address reads = true /\
  is_Some (to_checksum_address token) /\
  is_Some (decimals_call reads) /\
  exists total_supply, total_supply_call reads = Some total_supply /\ total_supply <> 0.
Proof.
  unfold validate_token.
  destruct (is_in_blacklist cfg token); [simpl; naive_solver|].
  destruct (is_in_whitelist cfg token); [|simpl; naive_solver].
  destruct (is_address reads); [|simpl; naive_solver].
  destruct (to_checksum_address token); [|simpl; split; [done | intros (_&_&_&[? [=]]&_)]].
  destruct (decimals_call reads);
    [|simpl; split; [done | intros (_&_&_&_&[? [=]]&_)]].
  destruct (total_supply_call reads) as [supply|];
    [|simpl; split; [done | intros (_&_&_&_&_&?&[=]&_)]].
  simpl. destruct (supply =? 0) eqn:Hz; simpl.
  - apply Z.eqb_eq in Hz as ->. split; [done|]. intros (_&_&_&_&_&supply'&[= <-]&?). done.
  - apply Z.eqb_neq in Hz. split; [|done]. intros _. split_and!; eauto.
Qed.

(** A token rejected by a list costs no chain call, and the blacklist
    goes first: a blacklisted token is rejected as blacklisted even when
    it is whitelisted; every contract call that is made follows the order
    decimals, then total supply. *)
Theorem validate_token_lists_first `{Library} (cfg : Config) (reads : TokenReads)
    (token : string) :
  (is_in_blacklist cfg token = true ->
     validate_token cfg reads token = (false, InBlacklist, [])) /\
  (is_in_blacklist cfg token = false -> is_in_whitelist cfg token = false ->
     validate_token cfg reads token = (false, NotInWhitelist, [])) /\
  ((validate_token cfg reads token).2 = [] \/
   (validate_token cfg reads token).2 = [CallDecimals] \/
   (validate_token cfg reads token).2 = [CallDecimals; CallTotalSupply]).
Proof.
  unfold validate_token. split_and!.
  - by intros ->.
  - by intros -> ->.
  - repeat case_match; simpl; auto.
Qed.

Lemma gwei_le_iff (wei : Z) (max : Q) :
  (gwei_of_wei wei <= max)%Q <-> (inject_Z wei <= max * 1000000000)%Q.
Proof.
  unfold gwei_of_wei. split; intros Hle.
  - apply (Qmult_le_r _ _ 1000000000) in Hle; [|reflexivity].
    revert Hle. unfold Qdiv. rewrite <- Qmult_assoc.
    rewrite (Qmult_comm (/ 1000000000)), Qmult_inv_r by discriminate.
    by rewrite Qmult_1_r.
  - apply Qle_shift_div_r; [reflexivity | done].
Qed.

(** The gas check accepts exactly when the gas price could be read and
    is at most the ceiling, counted in wei: wei <= ceiling * 10^9. A
    price equal to the ceiling is accepted; a failed read is a refusal
    with price 0. *)
Theorem check_gas_price_accepts (cfg : Config) (gas_price : option Z) :
  ((check_gas_price cfg gas_price).1 = true <->
     exists wei, gas_price = Some wei /\
       (inject_Z wei <= max_gas_price_gwei cfg * 1000000000)%Q) /\
  (gas_price = None -> check_gas_price cfg gas_price = (false, 0%Q)).
Proof.
  unfold check_gas_price. split; [|by intros ->].
  destruct gas_price as [wei|]; [|split; [done | intros (? & [=] & _)]].
  destruct (Liquidity.Qltb _ _) eqn:Hcmp; simpl.
  - apply LiquidityFacts.Qltb_lt in Hcmp. split; [done|].
    intros (w' & [= <-] & Hle). apply gwei_le_iff in Hle. by apply Qlt_not_le in Hcmp.
  - apply LiquidityFacts.Qltb_ge in Hcmp. split; [|done].
    intros _. exists wei. split; [done|]. by apply gwei_le_iff.
Qed.

(** The mixed-case entry of the sample blacklist catches the same token
    in another spelling. *)
Lemma lists_ignore_letter_case_example :
  is_in_blacklist sample_cfg "0xbadBADbadBADbadBADbadBADbadBADbadBADbadB" = true.
Proof.
  apply (proj1 (lists_ignore_letter_case
                  ["0x0000000000000000000000000000000000000000";
                   "0xBADbadBADbadBADbadBADbadBADbadBADbadBADb"] [] 500 _)).
  eexists. split; [right; by left|]. reflexivity.
Defined.

(** A live token that is on no list is approved. *)
Lemma validate_token_approves_example :
  (@validate_token Samples.plain_library sample_cfg live_token Samples.token_a).1.1 = true.
Proof.
  apply (validate_token_approves (H:=Samples.plain_library)).
  split; [vm_compute; reflexivity|].
  split; [vm_compute; reflexivity|].
  split; [reflexivity|].
  split; [eexists; reflexivity|].
  split; [eexists; reflexivity|].
  exists 1000000. split; [reflexivity | discriminate].
Defined.

(** The zero address of the default blacklist is rejected with no call,
    live or not. *)
Lemma validate_token_lists_first_example :
  @validate_token Samples.plain_library sample_cfg live_token
    "0x0000000000000000000000000000000000000000" = (false, InBlacklist, []).
Proof.
  apply (proj1 (validate_token_lists_first (H:=Samples.plain_library) _ _ _)).
  vm_compute. reflexivity.
Defined.

(** A gas price of exactly 500 gwei passes a ceiling of 500 gwei. *)
Lemma check_gas_price_accepts_example :
  (check_gas_price sample_cfg (Some 500000000000)).1 = true.
Proof.
  apply (proj1 (check_gas_price_accepts sample_cfg _)).
  exists 500000000000. split; [reflexivity | discriminate].
Defined.

End SecurityFacts.

(** ** More on the swap executor *)

Module SwapMoreFacts.
Import Swap SwapMore.

Section Facts.
Context `{Library}.
Variable self_address : string.
Variable w : World.

Ltac run_steps := unfold mbind, M_bind, bind, catch, lift, emit, ret, raise.

(** An address the library refuses, on either side of the swap or as the
    wallet, ends the execution before the first request. *)
Lemma execute_swap_bad_address token_in token_out amount_in :
  to_checksum_address token_in = None \/
  to_checksum_address token_out = None \/
  to_checksum_address self_address = None ->
  execute_swap self_address w token_in token_out amount_in = (None, []).
Proof.
  intros Hbad.
  assert (Hq : get_0x_quote self_address w token_in token_out amount_in = (Some None, [])).
  { unfold get_0x_quote. run_steps.
    destruct (to_checksum_address token_in); [|done].
    destruct (to_checksum_address token_out); [|done].
    destruct (to_checksum_address self_address); [|done].
    naive_solver. }
  unfold execute_swap. unfold mbind at 1, M_bind at 1, bind at 1. by rewrite Hq.
Qed.

(** What a sent swap that returns a hash went through. *)
Lemma send_swap_success swap_data h :
  (send_swap w swap_data).1 = Some (Some h) ->
  swap_sent w = Some h /\
  (exists receipt, swap_receipt w = Some receipt /\ status receipt = 1) /\
  is_Some (swap_gas_price w) /\
  last (send_swap w swap_data).2 = Some EvSwapWaited.
Proof.
  unfold send_swap. run_steps.
  repeat (case_match; simplify_eq; simpl; try done).
  intros [= <-]. split_and!; eauto.
  eexists. split; [done|]. by apply Z.eqb_eq.
Qed.

(** The calls of the three parts of an execution, by rank. *)
Lemma check_allowance_ranks token spender :
  map stage_rank (check_allowance w token spender).2 = [] \/
  map stage_rank (check_allowance w token spender).2 = [2%nat].
Proof.
  destruct (SwapFacts.check_allowance_cases w token spender)
    as [-> | (? & ? & _ & _ & ->)]; simpl; auto.
Qed.

Lemma approve_token_ranks token spender amount :
  map stage_rank (approve_token w token spender amount).2 = [3%nat] \/
  map stage_rank (approve_token w token spender amount).2 = [3%nat; 4%nat] \/
  map stage_rank (approve_token w token spender amount).2 = [3%nat; 4%nat; 5%nat].
Proof.
  unfold approve_token. run_steps.
  repeat (case_match; simplify_eq; simpl; auto).
Qed.

Lemma send_swap_ranks swap_data :
  map stage_rank (send_swap w swap_data).2 = [] \/
  map stage_rank (send_swap w swap_data).2 = [6%nat; 7%nat] \/
  map stage_rank (send_swap w swap_data).2 = [6%nat; 7%nat; 8%nat].
Proof.
  unfold send_swap. run_steps.
  repeat (case_match; simplify_eq; simpl; auto).
Qed.

(** An address the library refuses, on either side of the swap or as the
    wallet, ends the execution as failed before the first request: no
    call leaves the process. *)
Theorem bad_address_stops_before_request (token_in token_out : string) (amount_in : Z) :
  to_checksum_address token_in = None \/
  to_checksum_address token_out = None \/
  to_checksum_address self_address = None ->
  execute_swap self_address w token_in token_out amount_in = (None, []).
Proof. apply execute_swap_bad_address. Qed.

(** A hash is returned only for a confirmed swap: the hash is the one
    the sending of the swap returned, the receipt waited for has status
    1, both answers of 0x were non-empty, and the last call made is the
    wait for that receipt. *)
Theorem swap_hash_means_confirmed (token_in token_out : string) (amount_in : Z)
    (h : string) (t : list Event) :
  execute_swap self_address w token_in token_out amount_in = (Some h, t) ->
  swap_sent w = Some h /\
  (exists receipt, swap_receipt w = Some receipt /\ status receipt = 1) /\
  truthy (response_of (quote_http w ZeroEx)) = true /\
  truthy (response_of (swap_http w ZeroEx)) = true /\
  last t = Some EvSwapWaited.
Proof.
  intros Hrun.
  destruct (SwapFacts.execute_swap_cases self_address w token_in token_out amount_in)
    as [[Hr _] | (q & sd & Hq & Hqt & Hs & Hst & Hcase)].
  { rewrite Hrun in Hr. done. }
  rewrite Hrun in Hcase. injection Hcase as Hh Ht.
  assert (Hsend : (send_swap w sd).1 = Some (Some h)).
  { destruct (send_swap w sd).1 as [[h'|]|]; congruence. }
  destruct (send_swap_success sd h Hsend) as (Hsent & Hreceipt & _ & Hlast).
  rewrite Hq, Hs. split_and!; try done.
  rewrite Ht.
  change (last (([EvQuote ZeroEx; EvSwapData ZeroEx] ++
                 (ensure_allowance w token_in sd amount_in).2) ++ (send_swap w sd).2)
          = Some EvSwapWaited).
  by rewrite last_app, Hlast.
Qed.

(** The gas price is read from the chain whatever the payload says: the
    read is the default of [tx_data.get('gasPrice', ...)], made before
    the lookup. When that read fails the execution fails with nothing
    signed or sent, also for a payload that names its gas price. *)
Theorem gas_price_read_is_unconditional (token_in token_out : string) (amount_in : Z) :
  swap_gas_price w = None ->
  (execute_swap self_address w token_in token_out amount_in).1 = None /\
  Forall (fun e => is_swap_submission e = false)
    (execute_swap self_address w token_in token_out amount_in).2.
Proof.
  intros Hgas.
  assert (Hsend : forall sd, send_swap w sd = (None, [])).
  { intros sd. unfold send_swap. run_steps. rewrite Hgas.
    repeat (case_match; simplify_eq; simpl; try done). }
  destruct (SwapFacts.execute_swap_cases self_address w token_in token_out amount_in)
    as [[Hr Ht] | (q & sd & _ & _ & _ & _ & ->)].
  - split; [done|].
    destruct Ht as [-> | [-> | (_ & _ & ->)]]; repeat constructor.
  - rewrite Hsend. simpl. split; [done|]. rewrite app_nil_r.
    repeat constructor.
    rewrite SwapFacts.ensure_allowance_trace. simpl.
    apply Forall_app. split.
    + eapply Forall_impl; [apply SwapFacts.check_allowance_quiet|]. by intros ? [_ ?].
    + case_match; [|constructor].
      destruct (SwapFacts.approve_token_spec w token_in (get "allowanceTarget" sd)
                  (amount_in * 2)) as (r & rest & -> & Hrest & _).
      simpl. constructor; [done|].
      eapply Forall_impl; [exact Hrest|]. intros e. apply SwapFacts.approval_is_no_submission.
Qed.

(** The calls of an execution follow the order of the source, each made
    at most once: quote, swap data, allowance read, approval (called,
    sent, waited for), swap (signed, sent, waited for). *)
Theorem calls_in_stage_order (token_in token_out : string) (amount_in : Z) :
  StronglySorted lt
    (map stage_rank (execute_swap self_address w token_in token_out amount_in).2).
Proof.
  destruct (SwapFacts.execute_swap_cases self_address w token_in token_out amount_in)
    as [[_ Ht] | (q & sd & _ & _ & _ & _ & ->)].
  - destruct Ht as [-> | [-> | (_ & _ & ->)]]; simpl;
      repeat (constructor; try lia).
  - simpl. rewrite SwapFacts.ensure_allowance_trace. simpl.
    rewrite !map_app.
    destruct (check_allowance_ranks token_in (get "allowanceTarget" sd)) as [-> | ->];
    destruct (send_swap_ranks sd) as [-> | [-> | ->]];
    (case_match;
     [destruct (approve_token_ranks token_in (get "allowanceTarget" sd) (amount_in * 2))
        as [-> | [-> | ->]] |]);
    simpl; repeat (constructor; try lia).
Qed.

(** The approval reports its hash exactly when the two addresses are
    valid, the amount is a uint256, the transaction was built, signed and
    sent and a receipt came back: the status of that receipt is not
    looked at, so a reverted approval is reported like a successful
    one. *)
Theorem approval_blind_to_receipt_status (token : string) (spender : option Val)
    (amount : Z) (h : string) :
  (approve_token w token spender amount).1 = Some (Some h) <->
  is_Some (to_checksum_address token) /\
  is_Some (checksum_val spender) /\
  uint256 amount = true /\
  is_Some (approve_nonce w) /\
  is_Some (approve_gas_price w) /\
  is_Some (approve_signed w) /\
  approve_sent w = Some h /\
  is_Some (approve_receipt w).
Proof.
  unfold approve_token. run_steps.
  destruct (to_checksum_address token); [|simpl; split; [done | intros ([? [=]]&_)]].
  destruct (checksum_val spender); [|simpl; split; [done | intros (_&[? [=]]&_)]].
  destruct (uint256 amount); [|simpl; split; [done | intros (_&_&[=]&_)]].
  destruct (approve_nonce w); [|simpl; split; [done | intros (_&_&_&[? [=]]&_)]].
  destruct (approve_gas_price w); [|simpl; split; [done | intros (_&_&_&_&[? [=]]&_)]].
  destruct (approve_signed w); [|simpl; split; [done | intros (_&_&_&_&_&[? [=]]&_)]].
  destruct (approve_sent w) as [h'|];
    [|simpl; split; [done | intros (_&_&_&_&_&_&[=]&_)]].
  destruct (approve_receipt w); simpl.
  - split; [intros [= <-]; split_and!; eauto | intros (_&_&_&_&_&_&[= <-]&_); done].
  - split; [done | intros (_&_&_&_&_&_&_&[? [=]])].
Qed.

End Facts.

(** The wrapped token of Avalanche as the bots write it, 43 characters
    long, under a library that wants 42: nothing is asked. *)
Lemma bad_address_example :
  @execute_swap Pipeline.length_checking_library Samples.my_wallet
    (Samples.world_with Samples.only_0x 0 (Some "0xapprovehash"))
    Samples.token_a (Pipeline._get_wrapped_native_token 43114) 1000 = (None, []).
Proof.
  apply (bad_address_stops_before_request (H:=Pipeline.length_checking_library)).
  right. left. reflexivity.
Defined.

(** The sample execution that ends with a hash. *)
Lemma swap_hash_example :
  let w := Samples.world_with Samples.only_0x 5000 (Some "0xapprovehash") in
  swap_sent w = Some "0xswaphash" /\
  (exists receipt, swap_receipt w = Some receipt /\ status receipt = 1) /\
  truthy (response_of (quote_http w ZeroEx)) = true /\
  truthy (response_of (swap_http w ZeroEx)) = true /\
  last [EvQuote ZeroEx; EvSwapData ZeroEx; EvAllowanceRead Samples.token_a "0xholder";
        EvSwapSigned "0xrouter"; EvSwapSent; EvSwapWaited] = Some EvSwapWaited.
Proof.
  intros w.
  apply (swap_hash_means_confirmed (H:=Samples.plain_library) "0xwallet" w
           Samples.token_a "0xweth" 1000 "0xswaphash").
  vm_compute. reflexivity.
Defined.

(** The payload names a gas price of 1000; the read of the chain's gas
    price fails; nothing is signed. *)
Lemma gas_price_read_example :
  get "gasPrice"
    (default [] (transaction_of payload_with_gas_price)) = Some (SInt 1000) /\
  (@execute_swap Samples.plain_library "0xwallet" no_gas_price_world
     Samples.token_a "0xweth" 1000).1 = None /\
  Forall (fun e => is_swap_submission e = false)
    (@execute_swap Samples.plain_library "0xwallet" no_gas_price_world
       Samples.token_a "0xweth" 1000).2.
Proof.
  split; [reflexivity|].
  apply (gas_price_read_is_unconditional (H:=Samples.plain_library)). reflexivity.
Defined.

(** A reverted approval (receipt status 0) is reported with its hash;
    an approval of 2^256 reports none, whatever the chain would answer. *)
Lemma reverted_approval_example :
  (approve_token (H:=Samples.plain_library) reverted_approval_world Samples.token_a
     (Some (VScalar (SStr "0xholder"))) 2000).1 = Some (Some "0xapprovehash") /\
  (exists receipt, approve_receipt reverted_approval_world = Some receipt /\
                   status receipt = 0) /\
  (approve_token (H:=Samples.plain_library) reverted_approval_world Samples.token_a
     (Some (VScalar (SStr "0xholder"))) (2 ^ 256)).1 <> Some (Some "0xapprovehash").
Proof.
  split_and!.
  - apply (approval_blind_to_receipt_status (H:=Samples.plain_library)).
    split_and!; try (eexists; reflexivity); reflexivity.
  - eexists. split; reflexivity.
  - intros Hhash.
    apply (approval_blind_to_receipt_status (H:=Samples.plain_library)) in Hhash
      as (_ & _ & Hrange & _).
    discriminate Hrange.
Defined.

End SwapMoreFacts.

(** ** The per-token pipeline *)

Module PipelineFacts.
Import PyStr Pipeline.

(** The wrapped native token: every chain gets an address that starts
    with 0x; a chain that is not in the table gets the WETH of Ethereum;
    the address is 42 characters long on every chain but Avalanche
    (43114), whose entry is 43 characters long, one hexadecimal digit too
    many for an address. *)
Theorem wrapped_native_token_shape (chain_id : Z) :
  startswith "0x" (_get_wrapped_native_token chain_id) = true /\
  (chain_id ∉ [1; 56; 137; 8453; 43114; 250] ->
     _get_wrapped_native_token chain_id = _get_wrapped_native_token 1) /\
  (chain_id <> 43114 -> String.length (_get_wrapped_native_token chain_id) = 42%nat) /\
  (chain_id = 43114 -> String.length (_get_wrapped_native_token chain_id) = 43%nat).
Proof.
  unfold _get_wrapped_native_token at 1 2 4 5.
  destruct (wrapped_addresses !! chain_id) as [wrapped|] eqn:Hlookup.
  - apply elem_of_list_to_map_2 in Hlookup.
    repeat (apply elem_of_cons in Hlookup as [[= -> ->] | Hlookup];
            [split_and!; first [reflexivity | done | intros Hout; exfalso; apply Hout; set_solver]|]).
    by apply elem_of_nil in Hlookup.
  - apply not_elem_of_list_to_map in Hlookup. simpl in Hlookup.
    split_and!; [reflexivity | reflexivity | reflexivity |].
    intros ->. exfalso. apply Hlookup. set_solver.
Qed.

Section Facts.
Context `{Library}.
Variable bot : Bot.
Variable r : Reads.

(** The swap is reached exactly when the token is not the wrapped native
    token (letter case aside), the wallet holds a positive balance, the
    best pool is tradeable, the library accepts the token's address and,
    in safe mode only, the token is validated and the gas price is
    accepted; out of safe mode neither the lists, nor the token's
    contract, nor the gas price can stop the sale. *)
Theorem swap_reached_iff (token_address : string) :
  swapped (process_token bot r token_address).1 = true <->
  lower token_address <> lower (_get_wrapped_native_token (chain_id bot)) /\
  (safe_mode bot = true ->
     (Security.validate_token (security bot) (token_reads r) token_address).1.1 = true) /\
  (exists b, balance r = Some b /\ (0 < b)%Q) /\
  (safe_mode bot = true ->
     (Security.check_gas_price (security bot) (gas_price r)).1 = true) /\
  Liquidity.is_tradeable (min_liquidity_usd bot)
    (Liquidity.check_liquidity_dexscreener (http_get r) token_address).1 = true /\
  is_Some (to_checksum_address token_address).
Proof.
  unfold process_token, sell_all.
  destruct (decide (lower token_address = lower _)) as [Heq | Hne];
    [simpl; split; [done | by intros (? & _)]|].
  assert (Hbal : forall b : Q, Qle_bool b 0 = false <-> (0 < b)%Q).
  { intros b. rewrite <- not_true_iff_false, Qle_bool_iff. split.
    - apply Qnot_le_lt.
    - apply Qlt_not_le. }
  destruct (Security.validate_token _ _ _) as [[ok reason] calls].
  destruct (Security.check_gas_price _ _) as [gas_ok gwei].
  destruct (balance r) as [b|];
    [|destruct (safe_mode bot), ok; simpl; split; try done; intros (_&_&(?&[=]&_)&_)].
  destruct (Swap.execute_swap _ _ _ _ _) as [tx_hash swap_calls].
  specialize (Hbal b).
  destruct (Qle_bool b 0).
  { destruct (safe_mode bot), ok; simpl; split; try done;
      intros (_&_&(b'&[= <-]&Hpos)&_); apply Hbal in Hpos; done. }
  assert (Hpos : (0 < b)%Q) by by apply Hbal.
  destruct (Liquidity.is_tradeable _ _);
    destruct (to_checksum_address token_address);
    destruct (safe_mode bot), ok, gas_ok; simpl;
    (split;
     [ try done; intros _; split_and!; eauto
     | try done;
       intros (_ & Hv & _ & Hg & Ht & Hc);
       first [ by specialize (Hv eq_refl) | by specialize (Hg eq_refl)
             | done | by destruct Hc ] ]).
Qed.

(** The stages are entered in the order of the source and the run stops
    at the first that fails: the stages entered are always a beginning of
    validate (in safe mode), balance, gas, liquidity, decimals, swap; the
    swap is among them exactly when the run ends with a swap; a token
    refused by the validation costs no balance, gas or liquidity call. *)
Theorem stages_in_order (token_address : string) :
  (process_token bot r token_address).2 `prefix_of` all_stages bot /\
  (StSwap ∈ (process_token bot r token_address).2 <->
     swapped (process_token bot r token_address).1 = true) /\
  (forall reason, (process_token bot r token_address).1 = Rejected reason ->
     (process_token bot r token_address).2 = [StValidate]).
Proof.
  unfold process_token, sell_all, all_stages.
  destruct (decide (lower token_address = lower _)) as [Heq | Hne].
  { simpl. split_and!; [apply prefix_nil | set_solver | done]. }
  destruct (Security.validate_token _ _ _) as [[ok reason] calls].
  destruct (Security.check_gas_price _ _) as [gas_ok gwei].
  destruct (balance r) as [b|];
    [destruct (Swap.execute_swap _ _ _ _ _) as [tx_hash swap_calls];
     destruct (Qle_bool b 0)|];
    try destruct (Liquidity.is_tradeable _ _);
    try destruct (to_checksum_address token_address);
    destruct (safe_mode bot), ok, gas_ok; simpl;
    (split_and!;
     [ by eexists | set_solver | done ]).
Qed.

End Facts.

(** On Avalanche the pipeline cannot sell under any address check that
    refuses the wrapped token it asks for, the 43 characters of the
    table's entry for chain 43114: whenever the swap is reached it fails
    before any request is made. *)
Theorem avalanche_sale_fails `{Library} (bot : Bot) (r : Reads) (token_address : string)
    (amount_wei : Z) (tx_hash : option string) (calls : list Swap.Event) :
  to_checksum_address (_get_wrapped_native_token 43114) = None ->
  chain_id bot = 43114 ->
  (process_token bot r token_address).1 = Swapped amount_wei tx_hash calls ->
  tx_hash = None /\ calls = [].
Proof.
  intros Hrefused Hchain.
  assert (Hsell : forall b,
             sell_all bot r token_address b = Crashed \/
             exists amount, sell_all bot r token_address b = Swapped amount None []).
  { intros b. unfold sell_all.
    destruct (to_checksum_address token_address); [|by left]. right.
    rewrite SwapMoreFacts.execute_swap_bad_address;
      [by eexists | right; left; by rewrite Hchain]. }
  unfold process_token.
  repeat (case_match; simplify_eq; simpl; try done).
  all: intros [= -> -> ->];
    match goal with
    | Hs : sell_all _ _ _ ?b = _ |- _ =>
        destruct (Hsell b) as [Hc | [amount Hc]]; rewrite Hc in Hs; by simplify_eq
    end.
Qed.

(** Every gate passes on Base: the swap is reached. *)
Lemma swap_reached_example :
  swapped (process_token (H:=Samples.plain_library) base_bot good_reads Samples.token_a).1
    = true.
Proof.
  apply (swap_reached_iff (H:=Samples.plain_library)).
  split; [apply (bool_decide_unpack _); vm_compute; exact I|].
  split; [intros _; vm_compute; reflexivity|].
  split; [exists 5%Q; split; reflexivity|].
  split; [intros _; vm_compute; reflexivity|].
  split; [vm_compute; reflexivity|].
  eexists. reflexivity.
Defined.

(** The same reads on Avalanche, under a check of the length alone: the
    swap is reached and fails with no call made. *)
Lemma avalanche_sale_example :
  (process_token (H:=length_checking_library) avalanche_bot good_reads Samples.token_a).1
    = Swapped 5000000000000000000 None [].
Proof.
  assert (Hrun : exists tx_hash calls,
             (process_token (H:=length_checking_library) avalanche_bot good_reads
                Samples.token_a).1 = Swapped 5000000000000000000 tx_hash calls).
  { eexists _, _. vm_compute. reflexivity. }
  destruct Hrun as (tx_hash & calls & Hrun).
  destruct (avalanche_sale_fails (H:=length_checking_library) avalanche_bot good_reads
              Samples.token_a _ _ _ eq_refl eq_refl Hrun) as [-> ->].
  exact Hrun.
Defined.

End PipelineFacts.

(** ** The sniper's loop *)

Module SniperMoreFacts.
Import Liquidity LiquidityFacts Sniper SniperMore.

Lemma check_not_found cfg t r :
  found_tradeable cfg r = false -> (check_and_sell cfg t r).1 = t.
Proof.
  unfold found_tradeable, check_and_sell.
  destruct (Qle_bool (balance r) 0); [done|]. simpl. by intros ->.
Qed.

Lemma check_found cfg t r :
  found_tradeable cfg r = true ->
  let current := liquidity_usd (liquidity_info r) in
  (check_and_sell cfg t r).1 =
    if has_liquidity_detected t
    then {| has_liquidity_detected := true;
            initial_liquidity := initial_liquidity t;
            current_liquidity := current;
            max_liquidity_seen :=
              if Qltb (max_liquidity_seen t) current then current
              else max_liquidity_seen t;
            liquidity_check_count := liquidity_check_count t + 1 |}
    else {| has_liquidity_detected := true;
            initial_liquidity := current;
            current_liquidity := current;
            max_liquidity_seen := current;
            liquidity_check_count := 1 |}.
Proof.
  unfold found_tradeable, check_and_sell.
  destruct (Qle_bool (balance r) 0); [done|]. simpl. intros ->. simpl.
  destruct (has_liquidity_detected t) eqn:Hseen; simpl.
  - by destruct (Qltb _ (liquidity_growth_threshold cfg)).
  - by destruct (Qltb 1 _).
Qed.

Lemma run_checks_cons cfg t r turns :
  (run_checks cfg t (r :: turns)).1 = (run_checks cfg (check_and_sell cfg t r).1 turns).1.
Proof.
  simpl. destruct (check_and_sell cfg t r) as [t' e]. simpl.
  by destruct (run_checks cfg t' turns).
Qed.

Lemma seen_cons cfg r turns :
  seen cfg (r :: turns) =
    if found_tradeable cfg r then liquidity_usd (liquidity_info r) :: seen cfg turns
    else seen cfg turns.
Proof.
  unfold seen. rewrite filter_cons. destruct (found_tradeable cfg r) eqn:Hf.
  - by rewrite decide_True.
  - by rewrite decide_False.
Qed.

Lemma found_tradeable_min cfg r :
  found_tradeable cfg r = true ->
  (min_liquidity_usd cfg <= liquidity_usd (liquidity_info r))%Q.
Proof.
  unfold found_tradeable, is_tradeable. intros Hf.
  apply andb_true_iff in Hf as [_ Hf]. apply andb_true_iff in Hf as [_ Hf].
  by apply Qle_bool_iff.
Qed.

Lemma last_cons_default (x : Q) (l : list Q) :
  last (x :: l) = Some (default x (last l)).
Proof.
  revert x. induction l as [|y l IH]; intros x; [done|].
  change (last (x :: y :: l)) with (last (y :: l)). by rewrite !IH.
Qed.

(** The tracker after any number of turns, from a tracker that has seen
    liquidity already. *)
Lemma run_checks_detected cfg turns : forall t,
  has_liquidity_detected t = true ->
  let t' := (run_checks cfg t turns).1 in
  has_liquidity_detected t' = true /\
  initial_liquidity t' = initial_liquidity t /\
  current_liquidity t' = default (current_liquidity t) (last (seen cfg turns)) /\
  liquidity_check_count t' = liquidity_check_count t + Z.of_nat (length (seen cfg turns)) /\
  (max_liquidity_seen t <= max_liquidity_seen t')%Q /\
  Forall (fun x => (x <= max_liquidity_seen t')%Q) (seen cfg turns).
Proof.
  induction turns as [|r turns IH]; intros t Hseen.
  { simpl. split_and!; try done; [lia | apply Qle_refl]. }
  cbv zeta. rewrite run_checks_cons, seen_cons.
  destruct (found_tradeable cfg r) eqn:Hf.
  - pose proof (check_found cfg t r Hf) as Hstep. cbv zeta in Hstep.
    rewrite Hseen in Hstep.
    set (t1 := (check_and_sell cfg t r).1) in *.
    destruct (IH t1) as (Hd & Hi & Hc & Hn & Hm & Hall); [by rewrite Hstep|].
    assert (Hmax : (max_liquidity_seen t <= max_liquidity_seen t1)%Q /\
                   (liquidity_usd (liquidity_info r) <= max_liquidity_seen t1)%Q).
    { rewrite Hstep. simpl. destruct (Qltb _ _) eqn:Hcmp.
      - apply Qltb_lt in Hcmp. split; [by apply Qlt_le_weak | apply Qle_refl].
      - apply Qltb_ge in Hcmp. split; [apply Qle_refl | done]. }
    destruct Hmax as [Hm1 Hm2].
    split_and!.
    + done.
    + rewrite Hi, Hstep. done.
    + rewrite Hc, Hstep, last_cons_default. done.
    + rewrite Hn, Hstep. simpl length. simpl liquidity_check_count. lia.
    + by eapply Qle_trans.
    + constructor; [by eapply Qle_trans | done].
  - rewrite (check_not_found cfg t r Hf). by apply IH.
Qed.

(** The tracker of a loop that starts fresh tells the story of the turns
    that found the token tradeable: it is untouched while there was
    none; after that the initial liquidity is that of the first such
    turn and the current one that of the last, the count is their
    number, and the maximum bounds every liquidity seen, each of which is
    at least the configured minimum. *)
Theorem tracker_tells_the_turns (cfg : Config) (turns : list Reads) :
  let t := (run_checks cfg fresh turns).1 in
  (seen cfg turns = [] -> t = fresh) /\
  (has_liquidity_detected t = true <-> seen cfg turns <> []) /\
  initial_liquidity t = default 0%Q (head (seen cfg turns)) /\
  current_liquidity t = default 0%Q (last (seen cfg turns)) /\
  liquidity_check_count t = Z.of_nat (length (seen cfg turns)) /\
  Forall (fun x => (min_liquidity_usd cfg <= x)%Q /\ (x <= max_liquidity_seen t)%Q)
    (seen cfg turns).
Proof.
  induction turns as [|r turns IH]; [simpl; split_and!; done|].
  cbv zeta. rewrite run_checks_cons, seen_cons.
  destruct (found_tradeable cfg r) eqn:Hf.
  - pose proof (check_found cfg fresh r Hf) as Hstep. cbv zeta in Hstep. simpl in Hstep.
    set (t1 := (check_and_sell cfg fresh r).1) in *.
    destruct (run_checks_detected cfg turns t1) as (Hd & Hi & Hc & Hn & Hm & Hall);
      [by rewrite Hstep|].
    split_and!.
    + done.
    + done.
    + rewrite Hi, Hstep. done.
    + rewrite Hc, Hstep, last_cons_default. done.
    + rewrite Hn, Hstep. simpl length. simpl liquidity_check_count. lia.
    + constructor.
      * split; [by apply found_tradeable_min|].
        revert Hm. rewrite Hstep. done.
      * clear -Hall. unfold seen in *. rewrite Forall_map in *.
        rewrite Forall_forall in *. intros x Hx. split; [|by apply Hall].
        apply list_elem_of_filter in Hx as [Hx _]. by apply found_tradeable_min.
  - rewrite (check_not_found cfg fresh r Hf). apply IH.
Qed.

(** Once liquidity was seen the initial liquidity is settled: no later
    turn changes it or takes the detection back, so every growth ratio
    is measured against the first tradeable liquidity. *)
Theorem initial_liquidity_settled (cfg : Config) (t : Tracker) (turns : list Reads) :
  has_liquidity_detected t = true ->
  has_liquidity_detected (run_checks cfg t turns).1 = true /\
  initial_liquidity (run_checks cfg t turns).1 = initial_liquidity t.
Proof.
  intros Hseen. destruct (run_checks_detected cfg turns t Hseen) as (? & ? & _). done.
Qed.

(** Nothing records that a sale was attempted: with a positive minimum,
    a check that called the swap is followed, on the same reads, by a
    check that calls the swap again. *)
Theorem sale_is_attempted_again (cfg : Config) (t : Tracker) (r : Reads) :
  (0 < min_liquidity_usd cfg)%Q ->
  swap_called (check_and_sell cfg t r).2 = true ->
  swap_called (check_and_sell cfg (check_and_sell cfg t r).1 r).2 = true.
Proof.
  intros Hmin Hswap.
  assert (Hf : found_tradeable cfg r = true).
  { revert Hswap. unfold found_tradeable, check_and_sell.
    destruct (Qle_bool (balance r) 0); [done|].
    by destruct (is_tradeable _ _). }
  rewrite (check_found cfg t r Hf).
  assert (Hsell : forall ratio, swap_called (sell r ratio) = true).
  { intros ratio. apply SniperFacts.swap_called_sell.
    revert Hswap. unfold check_and_sell. unfold found_tradeable in Hf.
    apply andb_true_iff in Hf as [Hb Ht]. apply negb_true_iff in Hb.
    rewrite Hb, Ht. simpl.
    repeat case_match; try done; intros Hs; by apply SniperFacts.swap_called_sell in Hs. }
  assert (Hpos : (0 < liquidity_usd (liquidity_info r))%Q).
  { eapply Qlt_le_trans; [exact Hmin | by apply found_tradeable_min]. }
  revert Hswap. unfold check_and_sell. unfold found_tradeable in Hf.
  apply andb_true_iff in Hf as [Hb Ht]. apply negb_true_iff in Hb.
  rewrite Hb, Ht. simpl.
  destruct (has_liquidity_detected t) eqn:Hseen; simpl.
  - destruct (Qltb (growth_ratio_of _ _) _) eqn:Hgate; [done|]. intros _.
    simpl. apply Hsell.
  - destruct (Qltb 1 (liquidity_growth_threshold cfg)) eqn:Hone; [done|]. intros _.
    apply Qltb_ge in Hone.
    assert (Hgate : Qltb (growth_ratio_of (liquidity_usd (liquidity_info r))
                            (liquidity_usd (liquidity_info r)))
                      (liquidity_growth_threshold cfg) = false).
    { apply Qltb_ge. unfold growth_ratio_of.
      rewrite (proj2 (Qltb_lt _ _) Hpos).
      by rewrite (PyFloatFacts.div_self _ Hpos). }
    rewrite Hgate. simpl. apply Hsell.
Qed.

(** A tracker with an initial liquidity of 2000, three turns later. *)
Lemma initial_liquidity_settled_example :
  let t := {| has_liquidity_detected := true; initial_liquidity := 2000;
              current_liquidity := 2000; max_liquidity_seen := 2000;
              liquidity_check_count := 1 |} in
  let turns := [Samples.sniper_reads 2500; Samples.sniper_reads 500;
                Samples.sniper_reads 4000] in
  has_liquidity_detected (run_checks Samples.sniper_cfg t turns).1 = true /\
  initial_liquidity (run_checks Samples.sniper_cfg t turns).1 = 2000%Q.
Proof.
  intros t turns. apply (initial_liquidity_settled Samples.sniper_cfg t turns).
  reflexivity.
Defined.

(** The eager sniper on a pool of 2000 USD sells, and on the next turn
    sells again. *)
Lemma sale_is_attempted_again_example :
  swap_called (check_and_sell eager_cfg fresh (Samples.sniper_reads 2000)).2 = true /\
  swap_called
    (check_and_sell eager_cfg
       (check_and_sell eager_cfg fresh (Samples.sniper_reads 2000)).1
       (Samples.sniper_reads 2000)).2 = true.
Proof.
  assert (Hfirst : swap_called
            (check_and_sell eager_cfg fresh (Samples.sniper_reads 2000)).2 = true)
    by (vm_compute; reflexivity).
  split; [exact Hfirst|].
  apply (sale_is_attempted_again eager_cfg fresh (Samples.sniper_reads 2000));
    [reflexivity | exact Hfirst].
Defined.

End SniperMoreFacts.

(** ** More on the liquidity gate: which pool wins a tie *)

Module LiquidityMoreFacts.
Import PyStr Liquidity LiquidityFacts LiquidityMore.

Lemma max_from_first rest : forall best best_key,
  exists pre post km,
    ((best, best_key) :: rest = pre ++ (max_from best best_key rest, km) :: post)%list /\
    Forall (fun p => (p.2 < km)%Q) pre /\
    Forall (fun p => (p.2 <= km)%Q) post.
Proof.
  induction rest as [|[y ky] rest IH]; intros best best_key; simpl.
  { exists [], [], best_key. split_and!; [done | constructor | constructor]. }
  destruct (Qltb best_key ky) eqn:Hcmp.
  - apply Qltb_lt in Hcmp.
    destruct (IH y ky) as (pre & post & km & Heq & Hpre & Hpost).
    exists ((best, best_key) :: pre), post, km. split_and!.
    + simpl. by rewrite Heq.
    + constructor; [|done]. simpl.
      destruct pre as [|p pre'].
      * simpl in Heq. by injection Heq as _ <- _.
      * simpl in Heq. injection Heq as <- _.
        apply Forall_cons in Hpre as [Hp _]. simpl in Hp. by eapply Qlt_trans.
    + done.
  - apply Qltb_ge in Hcmp.
    destruct (IH best best_key) as (pre & post & km & Heq & Hpre & Hpost).
    destruct pre as [|p pre'].
    + simpl in Heq. injection Heq as Hm <- <-.
      exists [], ((y, ky) :: rest), best_key. split_and!.
      * simpl. by rewrite <- Hm.
      * constructor.
      * constructor; done.
    + remember (max_from best best_key rest) as m eqn:Hm.
      simpl in Heq. injection Heq as <- Hrest.
      exists ((best, best_key) :: (y, ky) :: pre'), post, km.
      apply Forall_cons in Hpre as [Hp Hpre]. simpl in Hp. split_and!.
      * simpl. by rewrite Hrest.
      * constructor; [done|]. constructor; [|done]. simpl. by eapply Qle_lt_trans.
      * done.
Qed.

Lemma keyed_Some pairs : forall ks,
  keyed pairs = Some ks ->
  pairs = map fst ks /\
  Forall (fun p => float_or_zero (liquidity_usd_field p.1) = Some p.2) ks.
Proof.
  induction pairs as [|x pairs IH]; intros ks; simpl.
  - intros [= <-]. split; [done | constructor].
  - destruct (float_or_zero (liquidity_usd_field x)) as [k|] eqn:Hk; [|done].
    destruct (keyed pairs) as [ks'|]; [|done]. intros [= <-].
    destruct (IH ks' eq_refl) as [-> Hall]. split; [done|]. by constructor.
Qed.

(** Python's [max] keeps the first of equal keys: the pool chosen by the
    liquidity check is the first of those with the greatest USD
    liquidity; every pool listed before it has strictly less, every pool
    listed after it at most as much. *)
Theorem first_of_equal_pools_wins (pairs : list Pair) (best : Pair) :
  max_by_liquidity pairs = Some best ->
  exists before after liq,
    (pairs = before ++ best :: after)%list /\
    float_or_zero (liquidity_usd_field best) = Some liq /\
    Forall (fun x => exists k,
              float_or_zero (liquidity_usd_field x) = Some k /\ (k < liq)%Q) before /\
    Forall (fun x => exists k,
              float_or_zero (liquidity_usd_field x) = Some k /\ (k <= liq)%Q) after.
Proof.
  unfold max_by_liquidity.
  destruct (keyed pairs) as [[|[x k] rest]|] eqn:Hkeyed; [done | | done].
  intros [= <-].
  destruct (keyed_Some pairs _ Hkeyed) as [-> Hkeys].
  destruct (max_from_first rest x k) as (pre & post & km & Heq & Hpre & Hpost).
  rewrite Heq in Hkeys |- *.
  apply Forall_app in Hkeys as [Hkpre Hkrest].
  apply Forall_cons in Hkrest as [Hbest Hkpost]. simpl in Hbest.
  exists (map fst pre), (map fst post), km. split_and!.
  - by rewrite map_app.
  - done.
  - rewrite Forall_map. rewrite Forall_forall in Hpre, Hkpre |- *.
    intros p Hp. exists p.2. split; [by apply Hkpre | by apply Hpre].
  - rewrite Forall_map. rewrite Forall_forall in Hpost, Hkpost |- *.
    intros p Hp. exists p.2. split; [by apply Hkpost | by apply Hpost].
Qed.

(** Two pools level at 3500 USD: the one listed first is chosen. *)
Lemma first_of_equal_pools_example :
  exists before after liq,
    (tied_pairs = before ++ first_of_tied :: after)%list /\
    float_or_zero (liquidity_usd_field first_of_tied) = Some liq /\
    Forall (fun x => exists k,
              float_or_zero (liquidity_usd_field x) = Some k /\ (k < liq)%Q) before /\
    Forall (fun x => exists k,
              float_or_zero (liquidity_usd_field x) = Some k /\ (k <= liq)%Q) after.
Proof.
  apply (first_of_equal_pools_wins tied_pairs first_of_tied). reflexivity.
Defined.

End LiquidityMoreFacts.

(** ** The request headers of the OKX adapter *)

Module OkxFacts.
Import Okx.

Lemma truthy_Some (s : option string) :
  truthy s = true -> exists v, s = Some v /\ v <> "".
Proof.
  destruct s as [v|]; [|done]. simpl. intros Hv. exists v. split; [done|].
  intros ->. done.
Qed.

(** The headers of a request to OKX: the user agent and the accepted
    type are always there; the project header and the key headers never
    go together, the project identifier taking precedence over the key;
    a passphrase is sent only along with a key; no header is sent with
    an empty value. *)
Theorem okx_headers_exclusive (c : Credentials) :
  let headers := _build_headers c in
  headers !! "User-Agent" = Some user_agent /\
  headers !! "Accept" = Some "application/json" /\
  (is_Some (headers !! "OK-ACCESS-PROJECT") <-> truthy (project_id c) = true) /\
  (is_Some (headers !! "OK-ACCESS-PROJECT") ->
     headers !! "OK-ACCESS-KEY" = None /\ headers !! "OK-ACCESS-PASSPHRASE" = None) /\
  (is_Some (headers !! "OK-ACCESS-PASSPHRASE") -> is_Some (headers !! "OK-ACCESS-KEY")) /\
  map_Forall (fun _ value => value <> "") headers.
Proof.
  unfold _build_headers.
  destruct (truthy (project_id c)) eqn:Hproject;
    [|destruct (truthy (api_key c)) eqn:Hkey;
      [destruct (truthy (api_passphrase c)) eqn:Hpass|]];
    repeat match goal with
           | Ht : truthy _ = true |- _ =>
               apply truthy_Some in Ht as (? & -> & ?)
           end;
    simpl; split_and!;
    try (by simplify_map_eq);
    try (split; [by intros _ | intros _; by simplify_map_eq]);
    try (split; [by simplify_map_eq | done]);
    try (intros [? Hl]; by simplify_map_eq);
    repeat (apply map_Forall_insert_2; [done|]); apply map_Forall_empty.
Qed.

End OkxFacts.
